(** * NeonPulse Stocks: the price-tick broadcast and alerting loop of server.js

    A shallow embedding of the server's price simulator, connection registry,
    per-tick fan-out, socket handlers and subscription endpoints, with the
    properties of the specification stated over it; then the thresholds and
    trade endpoints and two functions of the dashboard, with properties read
    off the code.

    Conventions of the embedding.
    - A JavaScript number is modelled by the rational it denotes ([Q]); the
      comparisons, [Math.abs] and [Math.max] of the source are exact on
      numbers and are modelled exactly.  Sums, products and quotients are
      taken in [Q], and [parseFloat] of a two-decimal text is the decimal
      itself, that is, without the rounding of binary64: the number the
      source computes differs from the one of [initTicker], [nextInfo],
      [buy] and [sell] by the rounding errors of a few operations.  What
      is stated of such a number is therefore either an order or a bound
      that this rounding respects (the floor, the ranges, the comparisons
      of two-decimal texts), or an equation up to a stated allowance:
      [roundedTo2] for a two-decimal text, [roundoff] for the cash and the
      average price of a trade.  Quantities of shares are integers below
      2^53, on which the source is exact.  The concrete runs below use
      values on which the rounding changes no text and no comparison.
    - [x.toFixed(2)] yields the text of a decimal with two fraction digits;
      such a text is modelled by its number of hundredths, an integer
      ([fixed2]).  The texts "0.00" and "-0.00" are both 0 hundredths:
      [parseFloat] maps them to numbers that every comparison of the source
      treats alike.
    - [Math.random()] is a sequence [rnd : nat -> Q]; the state counts the
      calls made so far.
    - A plain object used as a dictionary ([stockPrices], [subscribedStocks])
      and the [Map] of users are [gmap string _]; lookups see own properties
      only.  The [Map] [userSockets], which the source iterates, is an
      association list in insertion order. *)

From Stdlib Require Import QArith Qround Qabs ZArith Lia Lqa.
From stdpp Require Import gmap strings list fin_maps.

Local Open Scope Z_scope.

(** ** Numbers *)

Module Num.

(** The text of a two-decimal number, as its count of hundredths. *)
Definition fixed2 := Z.

(** [Number.prototype.toFixed] with 2 digits: the sign is split off, then
  the integer [n] with [n / 100] closest to [x] is taken, the larger one on
  a tie. *)
Definition toFixed2 (x : Q) : fixed2 :=
if Qle_bool 0 x then Qfloor (x * 100 + (1 # 2))
else - Qfloor ((- x) * 100 + (1 # 2)).

(** [parseFloat] on a text produced by [toFixed(2)]. *)
Definition parseFloat (s : fixed2) : Q := s # 100.

Definition Math_max (a b : Q) : Q := if Qle_bool a b then b else a.

Definition Math_abs (x : Q) : Q := Qabs x.

(** [a > b], [a >= b] and [a <= b] on numbers. *)
Definition gt (a b : Q) : bool := negb (Qle_bool a b).
Definition ge (a b : Q) : bool := Qle_bool b a.
Definition le (a b : Q) : bool := Qle_bool a b.

End Num.

Import Num.

(** ** Price simulator *)

(** One entry of [stockPrices]: three two-decimal texts. *)
Record priceInfo := PriceInfo {
  price : fixed2;
  change : fixed2;
  changePercent : fixed2
}.

Definition SUPPORTED_STOCKS : list string :=
  ["GOOG"; "TSLA"; "AMZN"; "META"; "NVDA"]%string.

Section Simulator.

(** The values returned by the successive calls of [Math.random()]. *)
Variable rnd : nat → Q.

(** Body of the initialising [forEach]: three draws per ticker, in the
    order of the fields of the object literal. *)
Definition initTicker (acc : gmap string priceInfo * nat) (ticker : string)
  : gmap string priceInfo * nat :=
  let '(prices, n) := acc in
  (<[ticker := {| price := toFixed2 (rnd n * 1000 + 100);
                  change := toFixed2 (rnd (S n) * 20 - 10);
                  changePercent := toFixed2 (rnd (S (S n)) * 4 - 2) |}]> prices,
   S (S (S n))).

Definition initPrices : gmap string priceInfo * nat :=
  foldl initTicker (∅, O) SUPPORTED_STOCKS.

(** What one ticker's entry becomes in a tick, from its current entry and
    the value [r] of [Math.random()].  The sum, the product and the
    quotient are exact here; the source rounds each to binary64 before
    [toFixed(2)] rounds to hundredths. *)
Definition nextInfo (info : priceInfo) (r : Q) : priceInfo :=
  let currentPrice := parseFloat (price info) in
  let change := (r * 10 - 5)%Q in
  let newPrice := Math_max 10 (currentPrice + change) in
  let changePercent := ((change / currentPrice) * 100)%Q in
  {| price := toFixed2 newPrice;
     change := toFixed2 change;
     changePercent := toFixed2 changePercent |}.

(** Body of the updating [forEach].  Reading [.price] of a missing entry
    throws a TypeError out of the timer callback: [None]. *)
Definition updateTicker (acc : option (gmap string priceInfo * nat))
    (ticker : string) : option (gmap string priceInfo * nat) :=
  match acc with
  | None => None
  | Some (prices, n) =>
      match prices !! ticker with
      | None => None
      | Some info => Some (<[ticker := nextInfo info (rnd n)]> prices, S n)
      end
  end.

Definition updatePrices (prices : gmap string priceInfo) (n : nat)
  : option (gmap string priceInfo * nat) :=
  foldl updateTicker (Some (prices, n)) SUPPORTED_STOCKS.

End Simulator.

(** ** Users and their stores *)

(** One element of [alerts.thresholds].  [above] and [below] hold a number
    or are [undefined]/[null] ([None]). *)
Record thresholdCfg := ThresholdCfg {
  t_ticker : string;
  above : option Q;
  below : option Q
}.

Record alertsCfg := AlertsCfg {
  thresholds : option (list thresholdCfg)
}.

(** A user record, of either store.  A missing or [null] field is [None].
    The [portfolio] field is read by the trade endpoint only and is kept
    apart, with that endpoint. *)
Record user := User {
  email : string;
  subscriptions : option (list string);
  alerts : option alertsCfg
}.

(** The MongoDB collection as the server sees it: a query or a save is
    rejected while the database cannot be reached. *)
Record mongo := Mongo {
  reachable : bool;
  docs : gmap string user
}.

Inductive fetched :=
| Rejected
| Resolved (u : option user).

Definition findOne (db : mongo) (e : string) : fetched :=
  if reachable db then Resolved (docs db !! e) else Rejected.

(** ** The [Map] of sockets, in insertion order *)

Module JsMap.

Definition t := list (string * string).

Fixpoint get (k : string) (m : t) : option string :=
  match m with
  | [] => None
  | (k', v) :: m' => if String.eqb k' k then Some v else get k m'
  end.

(** [Map.prototype.set]: an existing key keeps its place. *)
Fixpoint set (k v : string) (m : t) : t :=
  match m with
  | [] => [(k, v)]
  | (k', v') :: m' =>
      if String.eqb k' k then (k, v) :: m' else (k', v') :: set k v m'
  end.

Fixpoint delete (k : string) (m : t) : t :=
  match m with
  | [] => []
  | (k', v') :: m' =>
      if String.eqb k' k then m' else (k', v') :: delete k m'
  end.

Definition keys (m : t) : list string := m.*1.

End JsMap.

(** ** Server state *)

Record server := Server {
  stockPrices : gmap string priceInfo;
  randomCalls : nat;
  userSockets : JsMap.t;
  isMongoConnected : bool;
  db : mongo;
  inMemoryUsers : gmap string user
}.

Definition with_prices (st : server) (p : gmap string priceInfo) (n : nat) : server :=
  {| stockPrices := p; randomCalls := n; userSockets := userSockets st;
     isMongoConnected := isMongoConnected st; db := db st;
     inMemoryUsers := inMemoryUsers st |}.

Definition with_sockets (st : server) (m : JsMap.t) : server :=
  {| stockPrices := stockPrices st; randomCalls := randomCalls st;
     userSockets := m; isMongoConnected := isMongoConnected st; db := db st;
     inMemoryUsers := inMemoryUsers st |}.

Definition with_docs (st : server) (d : gmap string user) : server :=
  {| stockPrices := stockPrices st; randomCalls := randomCalls st;
     userSockets := userSockets st; isMongoConnected := isMongoConnected st;
     db := {| reachable := reachable (db st); docs := d |};
     inMemoryUsers := inMemoryUsers st |}.

Definition with_inMemoryUsers (st : server) (u : gmap string user) : server :=
  {| stockPrices := stockPrices st; randomCalls := randomCalls st;
     userSockets := userSockets st; isMongoConnected := isMongoConnected st;
     db := db st; inMemoryUsers := u |}.

(** The user lookup that every handler starts with: [User.findOne] when
    [isMongoConnected], [inMemoryUsers.get] otherwise. *)
Definition findUser (st : server) (e : string) : fetched :=
  if isMongoConnected st then findOne (db st) e
  else Resolved (inMemoryUsers st !! e).

(** ** Messages *)

Inductive alertType := sudden_change | threshold_above | threshold_below.

(** Payload of a [priceAlert]; a field the object literal does not set is
    [None]. *)
Record priceAlert := PriceAlert {
  a_ticker : string;
  a_type : alertType;
  a_changePercent : option Q;
  a_threshold : option Q;
  a_price : Q
}.

Inductive payload :=
| stockUpdate (subscribedStocks : gmap string priceInfo)
| priceAlertMsg (a : priceAlert).

(** [io.to(socketId).emit(...)] and [socket.emit(...)]: a message addressed
    to a socket id. *)
Record emit := Emit {
  to : string;
  msg : payload
}.

Definition isStockUpdate (m : emit) : bool :=
  match msg m with stockUpdate _ => true | priceAlertMsg _ => false end.

Definition isPriceAlert (m : emit) : bool := negb (isStockUpdate m).

(** ** Per-tick fan-out *)

Definition thresholdsOf (u : user) : list thresholdCfg :=
  match alerts u with
  | Some a => match thresholds a with Some l => l | None => [] end
  | None => []
  end.

Definition suddenChangeAlert (socketId ticker : string) (priceInfo : priceInfo)
  : list emit :=
  let changePercent := parseFloat (changePercent priceInfo) in
  if gt (Math_abs changePercent) 5 then
    [Emit socketId (priceAlertMsg
       {| a_ticker := ticker; a_type := sudden_change;
          a_changePercent := Some changePercent; a_threshold := None;
          a_price := parseFloat (price priceInfo) |})]
  else [].

Definition thresholdAlerts (socketId : string) (u : user) (ticker : string)
    (priceInfo : priceInfo) : list emit :=
  match List.find (λ t, String.eqb (t_ticker t) ticker) (thresholdsOf u) with
  | None => []
  | Some thresholdCfg =>
      let price := parseFloat (price priceInfo) in
      match above thresholdCfg with
      | Some a =>
          if ge price a then
            [Emit socketId (priceAlertMsg
               {| a_ticker := ticker; a_type := threshold_above;
                  a_changePercent := None; a_threshold := Some a;
                  a_price := price |})]
          else []
      | None => []
      end ++
      match below thresholdCfg with
      | Some b =>
          if le price b then
            [Emit socketId (priceAlertMsg
               {| a_ticker := ticker; a_type := threshold_below;
                  a_changePercent := None; a_threshold := Some b;
                  a_price := price |})]
          else []
      | None => []
      end
  end.

(** The alerts one subscribed ticker gives rise to, in emission order. *)
Definition tickerAlerts (socketId : string) (u : user) (ticker : string)
    (priceInfo : priceInfo) : list emit :=
  suddenChangeAlert socketId ticker priceInfo
  ++ thresholdAlerts socketId u ticker priceInfo.

(** Body of [user.subscriptions.forEach]: the accumulator is the object
    [subscribedStocks] and the messages emitted so far. *)
Definition fanoutTicker (socketId : string) (u : user)
    (prices : gmap string priceInfo)
    (acc : gmap string priceInfo * list emit) (ticker : string)
  : gmap string priceInfo * list emit :=
  match prices !! ticker with
  | None => acc
  | Some priceInfo =>
      (<[ticker := priceInfo]> acc.1,
       acc.2 ++ tickerAlerts socketId u ticker priceInfo)
  end.

(** The guarded block of the fan-out, the same text in both branches of
    the source: the loop, then the [stockUpdate]. *)
Definition fanoutUser (socketId : string) (u : user) (subs : list string)
    (prices : gmap string priceInfo) : list emit :=
  let acc := foldl (fanoutTicker socketId u prices) (∅, []) subs in
  acc.2 ++ [Emit socketId (stockUpdate acc.1)].

(** [user && user.subscriptions && user.subscriptions.length > 0] *)
Definition guardedSubscriptions (u : option user) : option (user * list string) :=
  match u with
  | None => None
  | Some u =>
      match subscriptions u with
      | None | Some [] => None
      | Some (t :: l) => Some (u, t :: l)
      end
  end.

(** Callback of [userSockets.forEach].  A rejected query is caught and
    logged.  The query is taken to resolve before anything else changes the
    state. *)
Definition fanoutIdentity (st : server) (entry : string * string) : list emit :=
  let '(e, socketId) := entry in
  match findUser st e with
  | Rejected => []
  | Resolved u =>
      match guardedSubscriptions u with
      | None => []
      | Some (u, subs) => fanoutUser socketId u subs (stockPrices st)
      end
  end.

Definition broadcast (st : server) : list emit :=
  flat_map (fanoutIdentity st) (userSockets st).

(** The timer callback: new prices for every ticker, then the fan-out over
    the registry.  [None] when the callback throws. *)
Definition tick (rnd : nat → Q) (st : server) : option (server * list emit) :=
  match updatePrices rnd (stockPrices st) (randomCalls st) with
  | None => None
  | Some (p, n) =>
      let st' := with_prices st p n in
      Some (st', broadcast st')
  end.

(** ** Socket handlers *)

(** Restriction of the price table to the subscriptions, as built by the
    [forEach] of the [register] handler. *)
Definition restrictTicker (prices : gmap string priceInfo)
    (acc : gmap string priceInfo) (ticker : string) : gmap string priceInfo :=
  match prices !! ticker with
  | None => acc
  | Some priceInfo => <[ticker := priceInfo]> acc
  end.

(** [socket.on('register', email)] on the socket with id [socketId].  The
    awaited lookup is taken to resolve within the event; a rejected one is
    caught and logged. *)
Definition onRegister (st : server) (socketId e : string) : server * list emit :=
  let st' := with_sockets st (JsMap.set e socketId (userSockets st)) in
  match findUser st' e with
  | Rejected => (st', [])
  | Resolved u =>
      match guardedSubscriptions u with
      | None => (st', [])
      | Some (_, subs) =>
          (st', [Emit socketId
                   (stockUpdate (foldl (restrictTicker (stockPrices st')) ∅ subs))])
      end
  end.

(** The loop of the [disconnect] handler: the key of the first entry whose
    value is the socket's id. *)
Fixpoint firstWithSocket (socketId : string) (entries : JsMap.t) : option string :=
  match entries with
  | [] => None
  | (e, s) :: rest =>
      if String.eqb s socketId then Some e else firstWithSocket socketId rest
  end.

(** [socket.on('disconnect')] on the socket with id [socketId]. *)
Definition onDisconnect (st : server) (socketId : string) : server :=
  match firstWithSocket socketId (userSockets st) with
  | None => st
  | Some e => with_sockets st (JsMap.delete e (userSockets st))
  end.

(** ** Subscription endpoints *)

(** What the handlers read of a request: [req.session.userEmail] and
    [req.body.ticker]. *)
Record request := Request {
  session_userEmail : option string;
  body_ticker : string
}.

(** [res.status(code).json({ error })], or
    [res.json({ success: true, subscriptions })]. *)
Inductive response :=
| Failure (status : Z)
| Success (subs : list string).

(** The session's email when [req.session.userEmail] is truthy. *)
Definition sessionUser (req : request) : option string :=
  match session_userEmail req with
  | Some e => if bool_decide (e = ""%string) then None else Some e
  | None => None
  end.

Definition includes (x : string) (l : list string) : bool := bool_decide (x ∈ l).

Definition with_subscriptions (u : user) (subs : list string) : user :=
  {| email := email u; subscriptions := Some subs; alerts := alerts u |}.

(** [POST /api/subscribe].  A TypeError on a missing [subscriptions] and a
    rejected query are caught: status 500.  The database stays as reachable
    between the query and the save as it was at the query. *)
Definition subscribe (st : server) (req : request) : server * response :=
  match sessionUser req with
  | None => (st, Failure 401)
  | Some e =>
      let ticker := body_ticker req in
      if negb (includes ticker SUPPORTED_STOCKS) then (st, Failure 400)
      else if isMongoConnected st then
        match findOne (db st) e with
        | Rejected => (st, Failure 500)
        | Resolved None => (st, Failure 404)
        | Resolved (Some u) =>
            match subscriptions u with
            | None => (st, Failure 500)
            | Some subs =>
                if negb (includes ticker subs) then
                  let subs' := subs ++ [ticker] in
                  (with_docs st (<[e := with_subscriptions u subs']> (docs (db st))),
                   Success subs')
                else (st, Success subs)
            end
        end
      else
        match inMemoryUsers st !! e with
        | None => (st, Failure 404)
        | Some u =>
            match subscriptions u with
            | None => (st, Failure 500)
            | Some subs =>
                if negb (includes ticker subs) then
                  let subs' := subs ++ [ticker] in
                  (with_inMemoryUsers st
                     (<[e := with_subscriptions u subs']> (inMemoryUsers st)),
                   Success subs')
                else (st, Success subs)
            end
        end
  end.

(** [POST /api/unsubscribe]: no check of the ticker against the supported
    ones; the filtered array replaces the field and is saved. *)
Definition unsubscribe (st : server) (req : request) : server * response :=
  match sessionUser req with
  | None => (st, Failure 401)
  | Some e =>
      let ticker := body_ticker req in
      if isMongoConnected st then
        match findOne (db st) e with
        | Rejected => (st, Failure 500)
        | Resolved None => (st, Failure 404)
        | Resolved (Some u) =>
            match subscriptions u with
            | None => (st, Failure 500)
            | Some subs =>
                let subs' := filter (λ sub, sub ≠ ticker) subs in
                (with_docs st (<[e := with_subscriptions u subs']> (docs (db st))),
                 Success subs')
            end
        end
      else
        match inMemoryUsers st !! e with
        | None => (st, Failure 404)
        | Some u =>
            match subscriptions u with
            | None => (st, Failure 500)
            | Some subs =>
                let subs' := filter (λ sub, sub ≠ ticker) subs in
                (with_inMemoryUsers st
                   (<[e := with_subscriptions u subs']> (inMemoryUsers st)),
                 Success subs')
            end
        end
  end.

(** The record [POST /api/login] creates for an email it does not know. *)
Definition newUser (e : string) : user :=
  {| email := e; subscriptions := Some [];
     alerts := Some {| thresholds := Some [] |} |}.

(** The store update of [POST /api/login], for an email [e] that passed
    validation and sanitising. *)
Definition login (st : server) (e : string) : server :=
  if isMongoConnected st then
    match findOne (db st) e with
    | Resolved None => with_docs st (<[e := newUser e]> (docs (db st)))
    | _ => st
    end
  else
    match inMemoryUsers st !! e with
    | None => with_inMemoryUsers st (<[e := newUser e]> (inMemoryUsers st))
    | Some _ => st
    end.

(** ** The server as a transition system *)

Inductive event :=
| Tick
| SocketRegister (socketId e : string)
| SocketDisconnect (socketId : string)
| PostLogin (e : string)
| PostSubscribe (req : request)
| PostUnsubscribe (req : request)
| MongoStatus (connected isReachable : bool).

Definition with_mongoStatus (st : server) (c r : bool) : server :=
  {| stockPrices := stockPrices st; randomCalls := randomCalls st;
     userSockets := userSockets st; isMongoConnected := c;
     db := {| reachable := r; docs := docs (db st) |};
     inMemoryUsers := inMemoryUsers st |}.

(** One event: the next state and the socket messages it sends.  [None]
    when the timer callback throws. *)
Definition step (rnd : nat → Q) (st : server) (ev : event)
  : option (server * list emit) :=
  match ev with
  | Tick => tick rnd st
  | SocketRegister socketId e => Some (onRegister st socketId e)
  | SocketDisconnect socketId => Some (onDisconnect st socketId, [])
  | PostLogin e => Some (login st e, [])
  | PostSubscribe req => Some ((subscribe st req).1, [])
  | PostUnsubscribe req => Some ((unsubscribe st req).1, [])
  | MongoStatus c r => Some (with_mongoStatus st c r, [])
  end.

(** A sequence of events; the messages of all of them, in order. *)
Fixpoint run (rnd : nat → Q) (st : server) (evs : list event)
  : option (server * list emit) :=
  match evs with
  | [] => Some (st, [])
  | ev :: evs' =>
      match step rnd st ev with
      | None => None
      | Some (st1, out1) =>
          match run rnd st1 evs' with
          | None => None
          | Some (st2, out2) => Some (st2, out1 ++ out2)
          end
      end
  end.

(** The state the process starts in: random prices, no socket, no
    in-memory user, the database not yet connected. *)
Definition initial (rnd : nat → Q) (d : mongo) : server :=
  {| stockPrices := (initPrices rnd).1; randomCalls := (initPrices rnd).2;
     userSockets := []; isMongoConnected := false; db := d;
     inMemoryUsers := ∅ |}.

(** ** Alert thresholds endpoint *)

(** [req.body.above] or [req.body.below] as the handler reads it:
    [undefined] or [null], a value on which [parseFloat] gives [NaN], or a
    value on which it gives a number. *)
Inductive bodyNumber :=
| Absent
| Unparsable
| Parsed (q : Q).

Record alertRequest := AlertRequest {
  ar_session : option string;
  ar_ticker : string;
  ar_above : bodyNumber;
  ar_below : bodyNumber
}.

(** [res.status(code).json({ error })], or [res.json(user.alerts)]. *)
Inductive alertsResponse :=
| AlertsFailure (status : Z)
| AlertsOk (a : alertsCfg).

(** [!isNaN(numeric)], where [numeric] is [null] for an absent value:
    [isNaN(null)] is [false]. *)
Definition notNaN (b : bodyNumber) : bool :=
  match b with Unparsable => false | Absent | Parsed _ => true end.

(** [isNaN(numeric) ? undefined : numeric]; a stored [null] is no number
    either. *)
Definition stored (b : bodyNumber) : option Q :=
  match b with Parsed q => Some q | Absent | Unparsable => None end.

(** The thresholds the handler leaves in the user: the entries of other
    tickers, then the new entry unless both values are [NaN]. *)
Definition newThresholds (old : list thresholdCfg) (ticker : string)
    (a b : bodyNumber) : list thresholdCfg :=
  let kept := filter (λ c, t_ticker c ≠ ticker) old in
  if notNaN a || notNaN b then
    kept ++ [{| t_ticker := ticker; above := stored a; below := stored b |}]
  else kept.

Definition with_alerts (u : user) (l : list thresholdCfg) : user :=
  {| email := email u; subscriptions := subscriptions u;
     alerts := Some {| thresholds := Some l |} |}.

(** [POST /api/alerts]. *)
Definition setAlerts (st : server) (req : alertRequest) : server * alertsResponse :=
  match sessionUser (Request (ar_session req) "") with
  | None => (st, AlertsFailure 401)
  | Some e =>
      let ticker := ar_ticker req in
      if negb (includes ticker SUPPORTED_STOCKS) then (st, AlertsFailure 400)
      else if isMongoConnected st then
        match findOne (db st) e with
        | Rejected => (st, AlertsFailure 500)
        | Resolved None => (st, AlertsFailure 404)
        | Resolved (Some u) =>
            let l := newThresholds (thresholdsOf u) ticker (ar_above req) (ar_below req) in
            (with_docs st (<[e := with_alerts u l]> (docs (db st))),
             AlertsOk {| thresholds := Some l |})
        end
      else
        match inMemoryUsers st !! e with
        | None => (st, AlertsFailure 404)
        | Some u =>
            let l := newThresholds (thresholdsOf u) ticker (ar_above req) (ar_below req) in
            (with_inMemoryUsers st (<[e := with_alerts u l]> (inMemoryUsers st)),
             AlertsOk {| thresholds := Some l |})
        end
  end.

(** ** Virtual trades *)

Record holding := Holding {
  h_ticker : string;
  h_quantity : Z;
  h_avgPrice : Q
}.

Record portfolio := Portfolio {
  cashBalance : Q;
  holdings : list holding
}.

(** [{ cashBalance: 100000, holdings: [] }] *)
Definition defaultPortfolio : portfolio :=
  {| cashBalance := 100000; holdings := [] |}.

(** [res.status(code).json({ error })], or [res.json(portfolio)] after the
    save. *)
Inductive tradeOutcome :=
| TradeFailure (status : Z)
| TradeOk (p : portfolio).

(** [portfolio.holdings.find(h => h.ticker === ticker)] *)
Definition findHolding (ticker : string) (l : list holding) : option holding :=
  List.find (λ h, String.eqb (h_ticker h) ticker) l.

(** Assignment to the fields of the object [find] returned: the first
    holding of the ticker is replaced where it stands. *)
Fixpoint updateHolding (ticker : string) (h' : holding) (l : list holding)
  : list holding :=
  match l with
  | [] => []
  | h :: l' =>
      if String.eqb (h_ticker h) ticker then h' :: l'
      else h :: updateHolding ticker h' l'
  end.

(** The [buy] branch, on the portfolio and the price read before it.  The
    products, the sum, the difference and the quotient are exact here; the
    source rounds each to binary64. *)
Definition buy (p : portfolio) (ticker : string) (qty : Z) (currentPrice : Q)
  : tradeOutcome :=
  let tradeValue := (currentPrice * inject_Z qty)%Q in
  if negb (Qle_bool tradeValue (cashBalance p)) then TradeFailure 400
  else
    let cash := (cashBalance p - tradeValue)%Q in
    match findHolding ticker (holdings p) with
    | None =>
        TradeOk {| cashBalance := cash;
                   holdings := holdings p ++
                     [{| h_ticker := ticker; h_quantity := qty;
                         h_avgPrice := currentPrice |}] |}
    | Some h =>
        let totalCost := (h_avgPrice h * inject_Z (h_quantity h) + tradeValue)%Q in
        let totalQty := h_quantity h + qty in
        TradeOk {| cashBalance := cash;
                   holdings := updateHolding ticker
                     {| h_ticker := h_ticker h; h_quantity := totalQty;
                        h_avgPrice := (totalCost / inject_Z totalQty)%Q |}
                     (holdings p) |}
    end.

(** The [sell] branch, with exact product and sum as in [buy]. *)
Definition sell (p : portfolio) (ticker : string) (qty : Z) (currentPrice : Q)
  : tradeOutcome :=
  let tradeValue := (currentPrice * inject_Z qty)%Q in
  match findHolding ticker (holdings p) with
  | None => TradeFailure 400
  | Some h =>
      if h_quantity h <? qty then TradeFailure 400
      else
        let left := h_quantity h - qty in
        let l := updateHolding ticker
                   {| h_ticker := h_ticker h; h_quantity := left;
                      h_avgPrice := h_avgPrice h |} (holdings p) in
        TradeOk {| cashBalance := (cashBalance p + tradeValue)%Q;
                   holdings := if left =? 0
                               then filter (λ x, h_ticker x ≠ ticker) l
                               else l |}
  end.

(** What the handler reads of a request; [tr_quantity] is the value of
    [parseInt(quantity, 10)], [None] for [NaN]. *)
Record tradeRequest := TradeRequest {
  tr_session : option string;
  tr_ticker : string;
  tr_side : string;
  tr_quantity : option Z
}.

(** The outcome of the handler's user lookup, in either store: rejected,
    no such user, or a user with its [portfolio] field ([None] when the
    field is missing).  The user record above carries no portfolio, so the
    lookup is an input here. *)
Inductive portfolioLookup :=
| LookupRejected
| LookupMissing
| LookupFound (p : option portfolio).

(** [POST /api/trade]: the response; on [TradeOk] the portfolio is what is
    saved to the user. *)
Definition trade (prices : gmap string priceInfo) (lookup : portfolioLookup)
    (req : tradeRequest) : tradeOutcome :=
  match sessionUser (Request (tr_session req) "") with
  | None => TradeFailure 401
  | Some _ =>
      let ticker := tr_ticker req in
      if negb (includes ticker SUPPORTED_STOCKS) then TradeFailure 400
      else if negb (includes (tr_side req) ["buy"; "sell"]%string) then TradeFailure 400
      else
        match tr_quantity req with
        | None => TradeFailure 400
        | Some qty =>
            if qty <=? 0 then TradeFailure 400
            else
              match prices !! ticker with
              | None => TradeFailure 400
              | Some priceInfo =>
                  let currentPrice := parseFloat (price priceInfo) in
                  match lookup with
                  | LookupRejected => TradeFailure 500
                  | LookupMissing => TradeFailure 404
                  | LookupFound op =>
                      let p := default defaultPortfolio op in
                      if String.eqb (tr_side req) "buy"
                      then buy p ticker qty currentPrice
                      else sell p ticker qty currentPrice
                  end
              end
        end
  end.

(** ** The dashboard (public/dashboard.js) *)

(** [recordPriceHistory]: the price is pushed on the ticker's history,
    created if need be, and the oldest value is shifted out once there are
    more than 30. *)
Definition recordPriceHistory (priceHistory : gmap string (list Q))
    (ticker : string) (p : Q) : gmap string (list Q) :=
  let history := default [] (priceHistory !! ticker) ++ [p] in
  <[ticker := if (30 <? length history)%nat then drop 1 history else history]>
    priceHistory.

(** [topGainer] and [topLoser] of [updateHighlights]. *)
Record highlight := Highlight {
  hl_ticker : string;
  hl_change : Q
}.

Record highlights := Highlights {
  topGainer : option highlight;
  topLoser : option highlight;
  totalChange : Q
}.

(** Body of [entries.forEach] in [updateHighlights]; an entry is a ticker
    with its [changePercentNum], [None] for [NaN]. *)
Definition highlightEntry (acc : highlights) (entry : string * option Q)
  : highlights :=
  match entry.2 with
  | None => acc
  | Some pct =>
      {| totalChange := (totalChange acc + pct)%Q;
         topGainer :=
           match topGainer acc with
           | None => Some {| hl_ticker := entry.1; hl_change := pct |}
           | Some g =>
               if gt pct (hl_change g)
               then Some {| hl_ticker := entry.1; hl_change := pct |}
               else Some g
           end;
         topLoser :=
           match topLoser acc with
           | None => Some {| hl_ticker := entry.1; hl_change := pct |}
           | Some g =>
               if negb (Qle_bool (hl_change g) pct)
               then Some {| hl_ticker := entry.1; hl_change := pct |}
               else Some g
           end |}
  end.

Definition updateHighlights (entries : list (string * option Q)) : highlights :=
  foldl highlightEntry
        {| topGainer := None; topLoser := None; totalChange := 0 |} entries.

(** ** Notions used in the statements *)

(** The entry the initialisation writes from the draws [n], [n+1], [n+2]. *)
Definition initInfo (rnd : nat → Q) (n : nat) : priceInfo :=
  {| price := toFixed2 (rnd n * 1000 + 100);
     change := toFixed2 (rnd (S n) * 20 - 10);
     changePercent := toFixed2 (rnd (S (S n)) * 4 - 2) |}.

(** Every supported ticker has an entry, at or above the floor. *)
Definition priced (p : gmap string priceInfo) : Prop :=
  ∀ t, t ∈ SUPPORTED_STOCKS → ∃ info, p !! t = Some info ∧ 1000 ≤ price info.

#[global] Instance alertType_eq_dec : EqDecision alertType.
Proof. solve_decision. Defined.

(** [m] is a [priceAlert] of type [ty] about [ticker]. *)
Definition alertFor (ticker : string) (ty : alertType) (m : emit) : bool :=
  match msg m with
  | priceAlertMsg a => bool_decide (a_ticker a = ticker) && bool_decide (a_type a = ty)
  | stockUpdate _ => false
  end.

(** An alert of type [ty] about [ticker] is among the messages [out]. *)
Definition fires (out : list emit) (ticker : string) (ty : alertType) : bool :=
  existsb (alertFor ticker ty) out.

(** The alerts of one identity's pass over its subscriptions, ticker by
    ticker. *)
Definition alertsOf (socketId : string) (u : user)
    (prices : gmap string priceInfo) (subs : list string) : list emit :=
  flat_map (λ t, match prices !! t with
                 | Some info => tickerAlerts socketId u t info
                 | None => []
                 end) subs.

(** The price table restricted to a list of tickers. *)
Definition restricted (prices : gmap string priceInfo) (subs : list string)
  : gmap string priceInfo :=
  foldl (restrictTicker prices) ∅ subs.

(** A user whose [alerts.thresholds] is the array [l]. *)
Definition with_thresholds (u : user) (l : list thresholdCfg) : user :=
  {| email := email u; subscriptions := subscriptions u;
     alerts := Some {| thresholds := Some l |} |}.

(** No subscription list of either store holds a ticker twice. *)
Definition dupFree (st : server) : Prop :=
  ∀ e u subs,
    docs (db st) !! e = Some u ∨ inMemoryUsers st !! e = Some u →
    subscriptions u = Some subs → NoDup subs.

(** No registry entry points to the socket [socketId]. *)
Definition unregistered (socketId : string) (m : JsMap.t) : Prop :=
  Forall (λ p, p.2 ≠ socketId) m.

(** Every subscription list of either store holds supported tickers
    only. *)
Definition supportedOnly (st : server) : Prop :=
  ∀ e u subs,
    docs (db st) !! e = Some u ∨ inMemoryUsers st !! e = Some u →
    subscriptions u = Some subs → ∀ t, t ∈ subs → t ∈ SUPPORTED_STOCKS.

(** At most one threshold entry per ticker. *)
Definition oneEntryPerTicker (l : list thresholdCfg) : Prop :=
  NoDup (t_ticker <$> l).

(** The number of shares of a ticker a portfolio holds. *)
Definition position (p : portfolio) (ticker : string) : Z :=
  match findHolding ticker (holdings p) with
  | Some h => h_quantity h
  | None => 0
  end.

(** A portfolio as the trade endpoint keeps it: no debt, no empty or
    negative holding, one holding per ticker. *)
Definition soundPortfolio (p : portfolio) : Prop :=
  (0 <= cashBalance p)%Q
  ∧ Forall (λ h, 0 < h_quantity h) (holdings p)
  ∧ NoDup (h_ticker <$> holdings p).



(** The random source stays in the range of [Math.random()]. *)
Definition unitRange (rnd : nat → Q) : Prop :=
  ∀ i, (0 <= rnd i)%Q ∧ (rnd i < 1)%Q.

(** The state after the handlers' save of a user record: [user.save()]
    when [isMongoConnected], the in-place change of the stored object
    otherwise. *)
Definition saveUser (st : server) (e : string) (u : user) : server :=
  if isMongoConnected st
  then with_docs st (<[e := u]> (docs (db st)))
  else with_inMemoryUsers st (<[e := u]> (inMemoryUsers st)).

(** [acc] reports the extremes of the entries [seen]: nothing while no
    entry has a number, else an entry with the greatest and one with the
    least percent change. *)
Definition extremesOf (acc : highlights) (seen : list (string * option Q)) : Prop :=
  (topGainer acc = None ↔ ∀ e, e ∈ seen → e.2 = None)
  ∧ (topLoser acc = None ↔ topGainer acc = None)
  ∧ (∀ g, topGainer acc = Some g →
       (hl_ticker g, Some (hl_change g)) ∈ seen
       ∧ ∀ t pct, (t, Some pct) ∈ seen → (pct <= hl_change g)%Q)
  ∧ (∀ l, topLoser acc = Some l →
       (hl_ticker l, Some (hl_change l)) ∈ seen
       ∧ ∀ t pct, (t, Some pct) ∈ seen → (hl_change l <= pct)%Q).

(** The state a sequence of events leads to, and the messages it sends
    (the state itself and no message if the timer throws on the way). *)
Definition stateAfter (rnd : nat → Q) (st : server) (evs : list event) : server :=
  match run rnd st evs with Some (st', _) => st' | None => st end.

Definition sentBy (rnd : nat → Q) (st : server) (evs : list event) : list emit :=
  match run rnd st evs with Some (_, out) => out | None => [] end.

(** * Properties *)

(** ** Rounding and comparison *)

Lemma toFixed2_ge (c : Z) (x : Q) : 0 ≤ c → (c # 100 <= x)%Q → c ≤ toFixed2 x.
Proof.
  intros Hc Hx. unfold toFixed2.
  assert (H0 : (0 <= x)%Q).
  { eapply Qle_trans; [|exact Hx]. unfold Qle; simpl; lia. }
  apply Qle_bool_iff in H0. rewrite H0.
  rewrite <- (Qfloor_Z c). apply Qfloor_resp_le.
  destruct x as [n d]. unfold Qle in *; simpl in *. nia.
Qed.

Lemma Math_max_ge_l a b : (a <= Math_max a b)%Q.
Proof.
  unfold Math_max. destruct (Qle_bool a b) eqn:E.
  - by apply Qle_bool_iff.
  - apply Qle_refl.
Qed.


Lemma parseFloat_le (a b : fixed2) : (parseFloat a <= parseFloat b)%Q ↔ a ≤ b.
Proof. unfold parseFloat, Qle; simpl. lia. Qed.

#[global] Instance toFixed2_proper : Proper (Qeq ==> eq) toFixed2.
Proof.
  intros x y E. unfold toFixed2.
  assert (Hb : Qle_bool 0 x = Qle_bool 0 y).
  { apply eq_true_iff_eq. rewrite !Qle_bool_iff. by rewrite E. }
  rewrite Hb. destruct (Qle_bool 0 y).
  - apply Qfloor_comp. by rewrite E.
  - f_equal. apply Qfloor_comp. by rewrite E.
Qed.




Lemma toFixed2_exact (c : fixed2) : toFixed2 (parseFloat c) = c.
Proof.
  unfold toFixed2, parseFloat.
  destruct (Qle_bool 0 (c # 100)) eqn:E.
  - apply Qle_bool_iff in E. unfold Qle in E. simpl in E.
    unfold Qfloor, Qplus, Qmult. simpl.
    change (Z.pos (100 * 1 * 2)) with 200. change (Z.pos (100 * 1)) with 100.
    replace (c * 100 * 2 + 1 * 100) with (100 + c * 200) by lia.
    rewrite Z.div_add by lia. change (100 `div` 200) with 0. lia.
  - assert (Hneg : c < 0).
    { destruct (Z.lt_ge_cases c 0) as [?|Hge]; [done|].
      assert (Qle_bool 0 (c # 100) = true); [|congruence].
      apply Qle_bool_iff. unfold Qle. simpl. lia. }
    unfold Qfloor, Qplus, Qmult, Qopp. simpl.
    change (Z.pos (100 * 1 * 2)) with 200. change (Z.pos (100 * 1)) with 100.
    replace (- c * 100 * 2 + 1 * 100) with (100 + (- c) * 200) by lia.
    rewrite Z.div_add by lia. change (100 `div` 200) with 0. lia.
Qed.

Lemma Qfloor_half_nonneg (x : Q) : (0 <= x)%Q → 0 ≤ Qfloor (x * 100 + (1 # 2)).
Proof.
  intros H. change 0 with (Qfloor 0). apply Qfloor_resp_le.
  destruct x as [n d]. unfold Qle, Qplus, Qmult in *. simpl in *. nia.
Qed.

Lemma toFixed2_mono (x y : Q) : (x <= y)%Q → toFixed2 x ≤ toFixed2 y.
Proof.
  intros Hxy. unfold toFixed2.
  destruct (Qle_bool 0 x) eqn:Ex, (Qle_bool 0 y) eqn:Ey.
  - apply Qfloor_resp_le.
    apply Qplus_le_l, Qmult_le_compat_r; [done|discriminate].
  - apply Qle_bool_iff in Ex.
    assert (Qle_bool 0 y = true); [|congruence].
    apply Qle_bool_iff. by eapply Qle_trans.
  - apply Qle_bool_iff in Ey.
    assert (Hx : (0 <= - x)%Q).
    { apply (Qopp_le_compat x 0). apply Qlt_le_weak, Qnot_le_lt.
      intros H. apply Qle_bool_iff in H. congruence. }
    pose proof (Qfloor_half_nonneg _ Hx). pose proof (Qfloor_half_nonneg _ Ey).
    lia.
  - apply Z.opp_le_mono. rewrite !Z.opp_involutive.
    apply Qfloor_resp_le.
    apply Qplus_le_l, Qmult_le_compat_r; [|discriminate].
    by apply Qopp_le_compat.
Qed.

Lemma toFixed2_between (a b : fixed2) (x : Q) :
  (parseFloat a <= x)%Q → (x <= parseFloat b)%Q → a ≤ toFixed2 x ≤ b.
Proof.
  intros Ha Hb. split.
  - rewrite <- (toFixed2_exact a). by apply toFixed2_mono.
  - rewrite <- (toFixed2_exact b). by apply toFixed2_mono.
Qed.





(** ** The price simulator *)

Lemma SUPPORTED_STOCKS_NoDup : NoDup SUPPORTED_STOCKS.
Proof. by apply (bool_decide_unpack _). Qed.

Section SimulatorFacts.

Variable rnd : nat → Q.

Lemma initPrices_fold (l : list string) :
  ∀ p n, NoDup l →
    ∀ i t, l !! i = Some t →
      (foldl (initTicker rnd) (p, n) l).1 !! t = Some (initInfo rnd (n + 3 * i)).
Proof.
  induction l as [|t0 l IH]; intros p n Hnd i t Hi; [done|].
  apply NoDup_cons in Hnd as [Hnotin Hnd].
  assert (Hkeep : ∀ l' q m, t0 ∉ l' →
            (foldl (initTicker rnd) (q, m) l').1 !! t0 = q !! t0).
  { clear. induction l' as [|t1 l' IH']; intros q m Hn; [done|].
    apply not_elem_of_cons in Hn as [Hne Hn]. simpl.
    rewrite IH' by done. by rewrite lookup_insert_ne. }
  destruct i as [|i]; simpl in *.
  - simplify_eq. rewrite Hkeep by done. rewrite lookup_insert_eq.
    by rewrite Nat.add_0_r.
  - rewrite (IH _ _ Hnd i t Hi). do 2 f_equal. lia.
Qed.

Lemma updatePrices_fold (l : list string) :
  ∀ p n, NoDup l → (∀ t, t ∈ l → is_Some (p !! t)) →
    ∃ p', foldl (updateTicker rnd) (Some (p, n)) l = Some (p', (n + length l)%nat)
      ∧ (∀ t, t ∉ l → p' !! t = p !! t)
      ∧ (∀ i t, l !! i = Some t →
           ∃ info, p !! t = Some info
                   ∧ p' !! t = Some (nextInfo info (rnd (n + i)%nat))).
Proof.
  induction l as [|t0 l IH]; intros p n Hnd Hdef.
  - exists p. simpl. rewrite Nat.add_0_r. by repeat split.
  - apply NoDup_cons in Hnd as [Hnotin Hnd].
    destruct (Hdef t0) as [info0 Hinfo0]; [by left|].
    simpl. rewrite Hinfo0.
    destruct (IH (<[t0 := nextInfo info0 (rnd n)]> p) (S n) Hnd)
      as (p' & Hfold & Hout & Hin).
    { intros t Ht. rewrite lookup_insert_ne; [apply Hdef; by right|].
      intros ->. done. }
    exists p'. split; [rewrite Hfold; f_equal; f_equal; lia|]. split.
    + intros t Ht. apply not_elem_of_cons in Ht as [Hne Ht].
      rewrite Hout by done. by rewrite lookup_insert_ne.
    + intros [|i] t Hi; simpl in Hi.
      * simplify_eq. exists info0. split; [done|].
        rewrite Hout by done. rewrite lookup_insert_eq.
        by rewrite Nat.add_0_r.
      * destruct (Hin i t Hi) as (info & Hp & Hp').
        assert (t ≠ t0).
        { intros ->. apply Hnotin. by eapply list_elem_of_lookup_2. }
        rewrite lookup_insert_ne in Hp by done.
        exists info. split; [done|]. rewrite Hp'. do 3 f_equal. lia.
Qed.

Lemma nextInfo_floor info r : 1000 ≤ price (nextInfo info r).
Proof.
  simpl. apply toFixed2_ge; [lia|].
  eapply Qle_trans; [|apply Math_max_ge_l]. unfold Qle; simpl; lia.
Qed.

Lemma priced_defined p t : priced p → t ∈ SUPPORTED_STOCKS → is_Some (p !! t).
Proof. intros Hp Ht. destruct (Hp t Ht) as (info & -> & _). eauto. Qed.

(** From a priced table the timer callback does not throw; it yields
    the table described by [nextInfo], ticker by ticker. *)
Lemma tick_priced (st : server) :
  (∀ t, t ∈ SUPPORTED_STOCKS → is_Some (stockPrices st !! t)) →
  ∃ st' , tick rnd st = Some (st', broadcast st')
    ∧ priced (stockPrices st')
    ∧ userSockets st' = userSockets st
    ∧ isMongoConnected st' = isMongoConnected st
    ∧ db st' = db st
    ∧ inMemoryUsers st' = inMemoryUsers st
    ∧ (∀ i t, SUPPORTED_STOCKS !! i = Some t →
         ∃ info, stockPrices st !! t = Some info
           ∧ stockPrices st' !! t
             = Some (nextInfo info (rnd (randomCalls st + i)%nat))).
Proof.
  intros Hp.
  destruct (updatePrices_fold SUPPORTED_STOCKS (stockPrices st) (randomCalls st)
              SUPPORTED_STOCKS_NoDup Hp) as (p' & Hfold & Hout & Hin).
  exists (with_prices st p' (randomCalls st + length SUPPORTED_STOCKS)%nat).
  unfold tick, updatePrices. rewrite Hfold. split; [done|].
  split; [|by repeat split].
  intros t Ht. apply list_elem_of_lookup_1 in Ht as [i Hi].
  destruct (Hin i t Hi) as (info & _ & Hnew).
  eexists. split; [exact Hnew|]. apply nextInfo_floor.
Qed.

Lemma initPrices_priced :
  (∀ i, 0 <= rnd i)%Q → priced (initPrices rnd).1.
Proof.
  intros Hr t Ht. apply list_elem_of_lookup_1 in Ht as [i Hi].
  unfold initPrices.
  rewrite (initPrices_fold _ _ _ SUPPORTED_STOCKS_NoDup i t Hi).
  eexists. split; [done|].
  change (1000 ≤ toFixed2 (rnd (0 + 3 * i)%nat * 1000 + 100)).
  apply toFixed2_ge; [lia|].
  specialize (Hr (0 + 3 * i)%nat). destruct (rnd (0 + 3 * i)) as [a b].
  unfold Qle, Qplus, Qmult in *; simpl in *.
  assert (0 ≤ a) by lia. nia.
Qed.

Lemma updateTicker_thrown (l : list string) :
  foldl (updateTicker rnd) None l = None.
Proof. by induction l. Qed.

(** The timer callback completes only if every ticker it visits has an
    entry. *)
Lemma updatePrices_defined (l : list string) :
  ∀ p n r, foldl (updateTicker rnd) (Some (p, n)) l = Some r →
    ∀ t, t ∈ l → is_Some (p !! t).
Proof.
  induction l as [|t0 l IH]; intros p n r Hf t Ht; [by apply elem_of_nil in Ht|].
  simpl in Hf. destruct (p !! t0) as [info0|] eqn:E0.
  2:{ by rewrite updateTicker_thrown in Hf. }
  destruct (decide (t = t0)) as [->|Hne]; [by rewrite E0|].
  apply elem_of_cons in Ht as [?|Ht]; [done|].
  specialize (IH _ _ _ Hf t Ht). by rewrite lookup_insert_ne in IH.
Qed.

Lemma tick_defined (st st' : server) (out : list emit) :
  tick rnd st = Some (st', out) →
  ∀ t, t ∈ SUPPORTED_STOCKS → is_Some (stockPrices st !! t).
Proof.
  unfold tick, updatePrices. intros Ht.
  destruct (foldl _ _ _) as [r|] eqn:Hf; [|done].
  by eapply updatePrices_defined.
Qed.

(** No event other than the timer touches the price table. *)
Lemma step_prices (st st' : server) (ev : event) (out : list emit) :
  ev ≠ Tick → step rnd st ev = Some (st', out) →
  stockPrices st' = stockPrices st.
Proof.
  intros Hne Hstep. destruct ev; simpl in Hstep; try done; simplify_eq; try done.
  - unfold onRegister in Hstep. repeat case_match; by simplify_eq.
  - unfold onDisconnect. by case_match.
  - unfold login, findOne. repeat case_match; by simplify_eq.
  - unfold subscribe, findOne. repeat case_match; by simplify_eq.
  - unfold unsubscribe, findOne. repeat case_match; by simplify_eq.
Qed.

Lemma run_priced (evs : list event) :
  ∀ st, priced (stockPrices st) →
    ∃ st' out, run rnd st evs = Some (st', out) ∧ priced (stockPrices st').
Proof.
  induction evs as [|ev evs IH]; intros st Hp; [by exists st, []|].
  assert (∃ st1 out1, step rnd st ev = Some (st1, out1)
                      ∧ priced (stockPrices st1)) as (st1 & out1 & Hs & Hp1).
  { destruct (step rnd st ev) as [[st1 out1]|] eqn:Hs.
    - destruct ev;
        [destruct (tick_priced st (λ t, priced_defined _ t Hp))
           as (st1' & Ht & Hp1 & _);
         simpl in Hs; rewrite Ht in Hs; simplify_eq; eauto|..];
        (exists st1, out1; split; [done|];
         eapply step_prices in Hs; [by rewrite Hs | done]).
    - destruct ev; try done.
      destruct (tick_priced st (λ t, priced_defined _ t Hp)) as (st1' & Ht & _).
      simpl in Hs. congruence. }
  destruct (IH st1 Hp1) as (st2 & out2 & Hr & Hp2).
  exists st2, (out1 ++ out2). simpl. by rewrite Hs, Hr.
Qed.

End SimulatorFacts.

(** ** C4: the price floor *)

(** C4.  For every ticker of the fixed supported set, in the initial state
    and after any sequence of events (so after every tick), the timer never
    throws and the ticker's price is at least the floor 10.00. *)
Theorem price_never_below_floor (rnd : nat → Q) (d : mongo) (evs : list event) :
  (∀ i, 0 <= rnd i ∧ rnd i < 1)%Q →
  ∃ st out, run rnd (initial rnd d) evs = Some (st, out)
    ∧ ∀ t, t ∈ SUPPORTED_STOCKS →
        ∃ info, stockPrices st !! t = Some info
                ∧ (10 <= parseFloat (price info))%Q.
Proof.
  intros Hr.
  destruct (run_priced rnd evs (initial rnd d)) as (st & out & Hrun & Hp).
  { apply initPrices_priced. intros i. apply Hr. }
  exists st, out. split; [done|]. intros t Ht.
  destruct (Hp t Ht) as (info & Hinfo & Hfloor).
  exists info. split; [done|]. unfold parseFloat, Qle; simpl. lia.
Qed.

Lemma price_never_below_floor_witness :
  ∃ st out,
    run (λ _, 1 # 2)%Q (initial (λ _, 1 # 2)%Q (Mongo false ∅)) [Tick; Tick]
      = Some (st, out)
    ∧ ∀ t, t ∈ SUPPORTED_STOCKS →
        ∃ info, stockPrices st !! t = Some info
                ∧ (10 <= parseFloat (price info))%Q.
Proof.
  apply (price_never_below_floor (λ _, 1 # 2)%Q (Mongo false ∅) [Tick; Tick]).
  intros i. split; [discriminate | reflexivity].
Defined.

(** ** C3: the reported change and percent change *)




(** ** The fan-out, in closed form *)

Lemma fanoutTicker_fold (s : string) (u : user) (p : gmap string priceInfo)
    (subs : list string) :
  ∀ acc, foldl (fanoutTicker s u p) acc subs
         = (foldl (restrictTicker p) acc.1 subs, acc.2 ++ alertsOf s u p subs).
Proof.
  induction subs as [|t subs IH]; intros [m out]; simpl.
  - by rewrite app_nil_r.
  - rewrite IH. unfold fanoutTicker, restrictTicker.
    destruct (p !! t); simpl; [by rewrite <- app_assoc | done].
Qed.

Lemma fanoutUser_eq (s : string) (u : user) (subs : list string)
    (p : gmap string priceInfo) :
  fanoutUser s u subs p
  = alertsOf s u p subs ++ [Emit s (stockUpdate (restricted p subs))].
Proof. unfold fanoutUser. by rewrite fanoutTicker_fold. Qed.

Lemma elem_of_cons_ne (t t0 : string) (l : list string) :
  t ≠ t0 → t ∈ t0 :: l ↔ t ∈ l.
Proof.
  intros Hne. rewrite elem_of_cons.
  split; [by intros [?|?] | by right].
Qed.

Lemma restrictTicker_fold_lookup (p : gmap string priceInfo)
    (subs : list string) (t : string) :
  ∀ acc, foldl (restrictTicker p) acc subs !! t
         = if bool_decide (t ∈ subs)
           then match p !! t with Some i => Some i | None => acc !! t end
           else acc !! t.
Proof.
  induction subs as [|t0 subs IH]; intros acc; cbn [foldl].
  - rewrite bool_decide_eq_false_2; [done|]. apply not_elem_of_nil.
  - rewrite IH. unfold restrictTicker.
    destruct (decide (t = t0)) as [->|Hne].
    + rewrite (bool_decide_eq_true_2 (t0 ∈ t0 :: subs)) by left.
      destruct (p !! t0) eqn:E; [|by destruct (bool_decide _)].
      rewrite lookup_insert_eq. by destruct (bool_decide _).
    + assert (Hiff : t ∈ t0 :: subs ↔ t ∈ subs).
      { by apply elem_of_cons_ne. }
      rewrite (bool_decide_ext _ _ Hiff).
      destruct (p !! t0); [by rewrite lookup_insert_ne|done].
Qed.

Lemma restricted_lookup (p : gmap string priceInfo) (subs : list string)
    (t : string) :
  restricted p subs !! t = if bool_decide (t ∈ subs) then p !! t else None.
Proof.
  unfold restricted. rewrite restrictTicker_fold_lookup, lookup_empty.
  case_bool_decide; [by destruct (p !! t)|done].
Qed.

Lemma tickerAlerts_shape (s : string) (u : user) (t : string) (i : priceInfo) :
  Forall (λ m, to m = s ∧ ∃ a, msg m = priceAlertMsg a ∧ a_ticker a = t)
         (tickerAlerts s u t i).
Proof.
  unfold tickerAlerts, suddenChangeAlert, thresholdAlerts.
  repeat case_match; simpl; repeat constructor; eauto.
Qed.

Lemma alertsOf_shape (s : string) (u : user) (p : gmap string priceInfo)
    (subs : list string) :
  Forall (λ m, isPriceAlert m = true ∧ to m = s) (alertsOf s u p subs).
Proof.
  induction subs as [|t subs IH]; simpl; [constructor|].
  apply Forall_app. split; [|done].
  destruct (p !! t); [|constructor].
  eapply Forall_impl; [apply tickerAlerts_shape|].
  intros m (Hto & a & Hm & _). split; [|done].
  unfold isPriceAlert, isStockUpdate. by rewrite Hm.
Qed.

Lemma fires_app (l1 l2 : list emit) (t : string) (ty : alertType) :
  fires (l1 ++ l2) t ty = fires l1 t ty || fires l2 t ty.
Proof. apply existsb_app. Qed.

Lemma fires_other_ticker (s : string) (u : user) (t t' : string)
    (i : priceInfo) (ty : alertType) :
  t' ≠ t → fires (tickerAlerts s u t' i) t ty = false.
Proof.
  intros Hne. unfold fires.
  pose proof (tickerAlerts_shape s u t' i) as Hs.
  induction Hs as [|m l (_ & a & Hm & Ha) _ IH]; [done|].
  simpl. rewrite IH, orb_false_r. unfold alertFor. rewrite Hm.
  rewrite bool_decide_eq_false_2; [done|congruence].
Qed.

Lemma fires_alertsOf (s : string) (u : user) (p : gmap string priceInfo)
    (subs : list string) (t : string) (ty : alertType) :
  fires (alertsOf s u p subs) t ty
  = bool_decide (t ∈ subs)
    && match p !! t with
       | Some i => fires (tickerAlerts s u t i) t ty
       | None => false
       end.
Proof.
  induction subs as [|t0 subs IH]; [done|].
  change (alertsOf s u p (t0 :: subs))
    with (match p !! t0 with
          | Some info => tickerAlerts s u t0 info
          | None => []
          end ++ alertsOf s u p subs).
  rewrite fires_app, IH.
  destruct (decide (t0 = t)) as [->|Hne].
  - rewrite (bool_decide_eq_true_2 (t ∈ t :: subs)) by left.
    destruct (p !! t) as [i|]; cbn [andb]; [|by destruct (bool_decide _)].
    destruct (fires (tickerAlerts s u t i) t ty); [done|].
    by destruct (bool_decide _).
  - assert (Hiff : t ∈ t0 :: subs ↔ t ∈ subs).
    { by apply elem_of_cons_ne. }
    rewrite (bool_decide_ext _ _ Hiff).
    destruct (p !! t0); [|done]. by rewrite fires_other_ticker.
Qed.

Lemma fires_fanoutUser (s : string) (u : user) (p : gmap string priceInfo)
    (subs : list string) (t : string) (ty : alertType) :
  fires (fanoutUser s u subs p) t ty = fires (alertsOf s u p subs) t ty.
Proof. rewrite fanoutUser_eq, fires_app. simpl. by rewrite orb_false_r. Qed.

Lemma fires_sudden_change (s : string) (u : user) (t : string) (i : priceInfo) :
  fires (tickerAlerts s u t i) t sudden_change
  = gt (Math_abs (parseFloat (changePercent i))) 5.
Proof.
  unfold tickerAlerts, suddenChangeAlert, thresholdAlerts, fires, alertFor.
  repeat case_match; simpl; rewrite ?bool_decide_eq_true_2 by done; done.
Qed.

Lemma fires_threshold_above (s : string) (u : user) (t : string) (i : priceInfo) :
  fires (tickerAlerts s u t i) t threshold_above
  = match List.find (λ c, String.eqb (t_ticker c) t) (thresholdsOf u) with
    | Some cfg =>
        match above cfg with
        | Some a => ge (parseFloat (price i)) a
        | None => false
        end
    | None => false
    end.
Proof.
  unfold tickerAlerts, suddenChangeAlert, thresholdAlerts, fires, alertFor.
  repeat case_match; simpl; rewrite ?bool_decide_eq_true_2 by done; done.
Qed.

Lemma fires_threshold_below (s : string) (u : user) (t : string) (i : priceInfo) :
  fires (tickerAlerts s u t i) t threshold_below
  = match List.find (λ c, String.eqb (t_ticker c) t) (thresholdsOf u) with
    | Some cfg =>
        match below cfg with
        | Some b => le (parseFloat (price i)) b
        | None => false
        end
    | None => false
    end.
Proof.
  unfold tickerAlerts, suddenChangeAlert, thresholdAlerts, fires, alertFor.
  repeat case_match; simpl; rewrite ?bool_decide_eq_true_2 by done; done.
Qed.

(** What a completed timer callback leaves behind: it sends the fan-out of
    the state it produces, and changes nothing but prices. *)
Lemma tick_out (rnd : nat → Q) (st0 st : server) (out : list emit) :
  tick rnd st0 = Some (st, out) →
  out = broadcast st
  ∧ userSockets st = userSockets st0
  ∧ (∀ e, findUser st e = findUser st0 e).
Proof.
  unfold tick. destruct (updatePrices _ _ _) as [[p n]|]; [|done].
  intros [= <- <-]. by repeat split.
Qed.

Lemma broadcast_split (st : server) (entry : string * string) :
  entry ∈ userSockets st →
  ∃ pre post, broadcast st = pre ++ fanoutIdentity st entry ++ post.
Proof.
  intros (l1 & l2 & Hl)%list_elem_of_split. unfold broadcast. rewrite Hl.
  exists (flat_map (fanoutIdentity st) l1), (flat_map (fanoutIdentity st) l2).
  by rewrite flat_map_app.
Qed.

Lemma fanoutIdentity_subscribed (st : server) (e s : string) (u : user)
    (subs : list string) :
  findUser st e = Resolved (Some u) → subscriptions u = Some subs → subs ≠ [] →
  fanoutIdentity st (e, s) = fanoutUser s u subs (stockPrices st).
Proof.
  intros Hf Hs Hne. unfold fanoutIdentity, guardedSubscriptions.
  rewrite Hf, Hs. by destruct subs.
Qed.

Lemma alerts_hold_no_update (s : string) (l : list emit) :
  Forall (λ m, isPriceAlert m = true ∧ to m = s) l →
  List.filter isStockUpdate l = [].
Proof.
  induction 1 as [|m l [Hm _] _ IH]; [done|].
  simpl. unfold isPriceAlert in Hm. apply negb_true_iff in Hm.
  by rewrite Hm.
Qed.

Lemma tickerAlerts_in_block (s : string) (u : user) (p : gmap string priceInfo)
    (subs : list string) (t : string) (info : priceInfo) (m : emit) :
  t ∈ subs → p !! t = Some info → m ∈ tickerAlerts s u t info →
  m ∈ fanoutUser s u subs p.
Proof.
  intros Hsub Hp Hm. rewrite fanoutUser_eq. apply elem_of_app. left.
  unfold alertsOf. apply list_elem_of_In, in_flat_map.
  exists t. split; [by apply list_elem_of_In|].
  rewrite Hp. by apply list_elem_of_In.
Qed.

Lemma fanoutIdentity_to (st : server) (e s : string) (m : emit) :
  m ∈ fanoutIdentity st (e, s) → to m = s.
Proof.
  unfold fanoutIdentity. destruct (findUser st e) as [|ou]; [by intros ?%elem_of_nil|].
  destruct (guardedSubscriptions ou) as [[u subs]|]; [|by intros ?%elem_of_nil].
  rewrite fanoutUser_eq. intros [Hm|Hm%list_elem_of_singleton]%elem_of_app.
  - pose proof (alertsOf_shape s u (stockPrices st) subs) as Hsh.
    rewrite Forall_forall in Hsh. by destruct (Hsh m Hm).
  - by subst m.
Qed.

(** The fan-out only writes to sockets of the registry. *)
Lemma broadcast_to (st : server) (m : emit) :
  m ∈ broadcast st →
  ∃ e, (e, to m) ∈ userSockets st ∧ m ∈ fanoutIdentity st (e, to m).
Proof.
  unfold broadcast. intros ([e s] & Hin & Hm)%list_elem_of_In%in_flat_map.
  apply list_elem_of_In in Hin, Hm.
  rewrite (fanoutIdentity_to _ _ _ _ Hm). eauto.
Qed.

(** An alert the fan-out sends about a ticker is one the ticker's entry
    gives rise to for some user. *)
Lemma fires_broadcast (st : server) (t : string) (ty : alertType) :
  fires (broadcast st) t ty = true →
  ∃ s u info, stockPrices st !! t = Some info
              ∧ fires (tickerAlerts s u t info) t ty = true.
Proof.
  unfold fires at 1. intros (m & Hm & Hal)%existsb_exists.
  apply list_elem_of_In in Hm.
  destruct (broadcast_to _ _ Hm) as (e & _ & Hblock).
  unfold fanoutIdentity in Hblock.
  destruct (findUser st e) as [|ou]; [by apply elem_of_nil in Hblock|].
  destruct (guardedSubscriptions ou) as [[u subs]|];
    [|by apply elem_of_nil in Hblock].
  assert (Hf : fires (fanoutUser (to m) u subs (stockPrices st)) t ty = true).
  { apply existsb_exists. exists m. split; [by apply list_elem_of_In|done]. }
  rewrite fires_fanoutUser, fires_alertsOf in Hf.
  apply andb_true_iff in Hf as [_ Hf].
  destruct (stockPrices st !! t) as [info|]; [|done].
  by exists (to m), u, info.
Qed.

(** ** C1: one [stockUpdate] per identity, and where it stands *)

(** The claim fails on the order.  With [Math.random()] returning 0, a user
    subscribed to GOOG and registered on socket s1 sees, in the second tick,
    GOOG fall from 95.00 to 90.00 (-5.26 percent): the [priceAlert] is sent
    first and the [stockUpdate] after it. *)
Lemma alert_precedes_update_counterexample :
  let rnd : nat → Q := λ _, 0%Q in
  let a := "a@b.co"%string in
  let goog := {| price := 9000; change := -500; changePercent := -526 |} in
  ∃ st1 st2 out1,
    run rnd (initial rnd (Mongo false ∅))
        [PostLogin a; PostSubscribe (Request (Some a) "GOOG");
         SocketRegister "s1" a; Tick] = Some (st1, out1)
    ∧ tick rnd st1
      = Some (st2,
              [Emit "s1" (priceAlertMsg
                 {| a_ticker := "GOOG"; a_type := sudden_change;
                    a_changePercent := Some (-526 # 100)%Q;
                    a_threshold := None; a_price := (9000 # 100)%Q |});
               Emit "s1" (stockUpdate {[ "GOOG"%string := goog ]})])
    ∧ ¬ (∃ out m rest, tick rnd st1 = Some (st2, out)
           ∧ out = Emit "s1" (stockUpdate m) :: rest).
Proof.
  intros rnd a goog.
  destruct (run rnd (initial rnd (Mongo false ∅)) _) as [[st1 o1]|] eqn:Hrun;
    vm_compute in Hrun; [|done].
  injection Hrun as <- <-.
  eexists _, _, _. split; [reflexivity|].
  split; [vm_compute; reflexivity|].
  intros (out & m & rest & Ht & ->). vm_compute in Ht. done.
Qed.

(** C1, amended.  For every identity of the registry whose user has
    non-empty subscriptions, the tick dispatches to the identity's socket the
    zero or more [priceAlert] messages of its subscribed tickers and then, as
    the last message, exactly one [stockUpdate] holding the price table
    restricted to the subscriptions. *)
Theorem stockUpdate_after_alerts (rnd : nat → Q) (st0 st : server)
    (out : list emit) (e s : string) (u : user) (subs : list string) :
  tick rnd st0 = Some (st, out) →
  (e, s) ∈ userSockets st0 →
  findUser st0 e = Resolved (Some u) →
  subscriptions u = Some subs →
  subs ≠ [] →
  ∃ pre post,
    out = pre ++ fanoutIdentity st (e, s) ++ post
    ∧ fanoutIdentity st (e, s)
      = alertsOf s u (stockPrices st) subs
        ++ [Emit s (stockUpdate (restricted (stockPrices st) subs))]
    ∧ Forall (λ m, isPriceAlert m = true ∧ to m = s)
             (alertsOf s u (stockPrices st) subs)
    ∧ (∀ t, restricted (stockPrices st) subs !! t
            = if bool_decide (t ∈ subs) then stockPrices st !! t else None)
    ∧ length (List.filter isStockUpdate (fanoutIdentity st (e, s))) = 1%nat.
Proof.
  intros Ht Hin Hf Hs Hne.
  destruct (tick_out _ _ _ _ Ht) as (-> & Hsock & Hfind).
  rewrite <- Hsock in Hin. rewrite <- Hfind in Hf.
  destruct (broadcast_split st (e, s) Hin) as (pre & post & Hb).
  exists pre, post. split; [done|].
  assert (Hblock : fanoutIdentity st (e, s)
                   = alertsOf s u (stockPrices st) subs
                     ++ [Emit s (stockUpdate (restricted (stockPrices st) subs))]).
  { rewrite (fanoutIdentity_subscribed _ _ _ _ _ Hf Hs Hne).
    apply fanoutUser_eq. }
  split; [done|]. split; [apply alertsOf_shape|].
  split; [intros t; apply restricted_lookup|].
  rewrite Hblock, List.filter_app, length_app. simpl.
  by rewrite (alerts_hold_no_update _ _ (alertsOf_shape s u (stockPrices st) subs)).
Qed.

Lemma stockUpdate_after_alerts_witness :
  let rnd : nat → Q := λ _, 0%Q in
  let a := "a@b.co"%string in
  let u := {| email := a; subscriptions := Some ["GOOG"%string];
              alerts := Some {| thresholds := Some [] |} |} in
  let st0 := stateAfter rnd (initial rnd (Mongo false ∅))
               [PostLogin a; PostSubscribe (Request (Some a) "GOOG");
                SocketRegister "s1" a; Tick] in
  let st := stateAfter rnd st0 [Tick] in
  let out := sentBy rnd st0 [Tick] in
  ∃ pre post,
    out = pre ++ fanoutIdentity st (a, "s1"%string) ++ post
    ∧ fanoutIdentity st (a, "s1"%string)
      = alertsOf "s1" u (stockPrices st) ["GOOG"%string]
        ++ [Emit "s1" (stockUpdate (restricted (stockPrices st) ["GOOG"%string]))]
    ∧ Forall (λ m, isPriceAlert m = true ∧ to m = "s1"%string)
             (alertsOf "s1" u (stockPrices st) ["GOOG"%string])
    ∧ (∀ t, restricted (stockPrices st) ["GOOG"%string] !! t
            = if bool_decide (t ∈ ["GOOG"%string])
              then stockPrices st !! t else None)
    ∧ length (List.filter isStockUpdate (fanoutIdentity st (a, "s1"%string)))
      = 1%nat.
Proof.
  intros rnd a u st0 st out.
  apply (stockUpdate_after_alerts rnd st0 st out a "s1" u ["GOOG"%string]).
  - vm_compute. reflexivity.
  - vm_compute. left.
  - vm_compute. reflexivity.
  - reflexivity.
  - discriminate.
Defined.

(** ** C2: the sudden-change alert *)

Lemma gt_abs_5 (c : fixed2) :
  gt (Math_abs (parseFloat c)) 5 = true ↔ (5 < Qabs (parseFloat c))%Q.
Proof.
  unfold gt, Math_abs. rewrite negb_true_iff, <- not_true_iff_false, Qle_bool_iff.
  split; [apply Qnot_le_lt | apply Qlt_not_le].
Qed.

Lemma abs_parseFloat_gt_5 (c : fixed2) :
  (5 < Qabs (parseFloat c))%Q ↔ c < -500 ∨ 500 < c.
Proof. unfold parseFloat, Qlt; simpl. lia. Qed.

(** The claim fails at its upper boundary.  [Math.random()] returns 0 for
    its first 65 calls (the start and ten ticks, which take every price from
    100.00 to 50.00) and 0.750005 afterwards: in the eleventh tick the delta
    is 2.50005 and the percent change computed is 5.0001.  It is stored as
    "5.00", and no alert is sent. *)
Lemma sudden_change_rounding_counterexample :
  let rnd : nat → Q := λ i, if (i <? 65)%nat then 0%Q else (750005 # 1000000)%Q in
  let a := "a@b.co"%string in
  ∃ st0 st out0 prev,
    run rnd (initial rnd (Mongo false ∅))
        ([PostLogin a; PostSubscribe (Request (Some a) "GOOG");
          SocketRegister "s1" a] ++ replicate 10 Tick) = Some (st0, out0)
    ∧ randomCalls st0 = 65%nat
    ∧ stockPrices st0 !! "GOOG"%string = Some prev
    ∧ price prev = 5000
    ∧ ((rnd 65%nat * 10 - 5) / parseFloat (price prev) * 100 == 50001 # 10000)%Q
    ∧ tick rnd st0
      = Some (st, [Emit "s1" (stockUpdate
                     {[ "GOOG"%string :=
                          {| price := 5250; change := 250; changePercent := 500 |} ]})])
    ∧ fires (fanoutIdentity st (a, "s1"%string)) "GOOG" sudden_change = false.
Proof.
  intros rnd a.
  destruct (run rnd (initial rnd (Mongo false ∅)) _) as [[st0 o0]|] eqn:Hrun;
    vm_compute in Hrun; [|done].
  injection Hrun as <- <-.
  eexists _, _, _, _. split; [reflexivity|].
  split; [reflexivity|].
  split; [vm_compute; reflexivity|].
  split; [reflexivity|].
  split; [reflexivity|].
  split; vm_compute; reflexivity.
Qed.

(** C2, amended.  For every tick, identity and subscribed ticker, a
    sudden-change alert is sent if and only if the absolute value of the
    ticker's reported percent change, a number of two decimals, is strictly
    greater than 5.0: a reported 5.00 does not fire and a reported 5.01
    does.  A computed percent change of 5.0001 is reported as 5.00.  The
    alert, carrying the reported percent change and the price, is among the
    messages the tick sends, in the identity's part of them; and the tick
    sends no sudden-change alert about the ticker, to anyone, otherwise. *)
Theorem sudden_change_on_reported_percent (rnd : nat → Q) (st0 st : server)
    (out : list emit) (e s : string) (u : user) (subs : list string)
    (t : string) (info : priceInfo) :
  tick rnd st0 = Some (st, out) →
  (e, s) ∈ userSockets st0 →
  findUser st0 e = Resolved (Some u) →
  subscriptions u = Some subs →
  t ∈ subs →
  stockPrices st !! t = Some info →
  let block := fanoutIdentity st (e, s) in
  let pct := parseFloat (changePercent info) in
  let alert :=
    Emit s (priceAlertMsg {| a_ticker := t; a_type := sudden_change;
                             a_changePercent := Some pct; a_threshold := None;
                             a_price := parseFloat (price info) |}) in
  (∃ pre post, out = pre ++ block ++ post)
  ∧ (fires block t sudden_change = true ↔ (5 < Qabs pct)%Q)
  ∧ (fires out t sudden_change = true ↔ (5 < Qabs pct)%Q)
  ∧ ((5 < Qabs pct)%Q → alert ∈ block ∧ alert ∈ out)
  ∧ (changePercent info = 500 →
       fires block t sudden_change = false ∧ fires out t sudden_change = false)
  ∧ (changePercent info = 501 →
       fires block t sudden_change = true ∧ fires out t sudden_change = true)
  ∧ toFixed2 (50001 # 10000) = 500.
Proof.
  intros Ht Hin Hf Hs Hsub Hinfo block pct alert.
  destruct (tick_out _ _ _ _ Ht) as (-> & Hsock & Hfind).
  rewrite <- Hfind in Hf. rewrite <- Hsock in Hin.
  destruct (broadcast_split st (e, s) Hin) as (pre & post & Hb).
  fold block in Hb.
  assert (Hne : subs ≠ []) by (intros ->; by apply elem_of_nil in Hsub).
  assert (Hblock : block = fanoutUser s u subs (stockPrices st)).
  { unfold block. by apply fanoutIdentity_subscribed. }
  assert (Hfires : fires block t sudden_change = gt (Math_abs pct) 5).
  { rewrite Hblock, fires_fanoutUser, fires_alertsOf, Hinfo, fires_sudden_change.
    by rewrite bool_decide_eq_true_2. }
  assert (Hout : fires (broadcast st) t sudden_change = gt (Math_abs pct) 5).
  { destruct (gt (Math_abs pct) 5) eqn:E.
    - rewrite Hb, !fires_app, Hfires. by rewrite orb_true_r.
    - apply not_true_is_false. intros H.
      destruct (fires_broadcast _ _ _ H) as (s' & u' & info' & Hi' & Hf').
      rewrite Hinfo in Hi'. injection Hi' as <-.
      rewrite fires_sudden_change in Hf'. fold pct in Hf'. congruence. }
  split; [by exists pre, post|].
  rewrite Hout, Hfires.
  split; [apply gt_abs_5|]. split; [apply gt_abs_5|]. split.
  { intros H5. apply gt_abs_5 in H5.
    assert (Hal : alert ∈ block).
    { rewrite Hblock. apply (tickerAlerts_in_block _ _ _ _ t info); [done..|].
      unfold tickerAlerts, suddenChangeAlert. cbn zeta. rewrite H5.
      apply elem_of_app. left. by left. }
    split; [done|]. rewrite Hb.
    apply elem_of_app. right. apply elem_of_app. by left. }
  unfold pct. split; [by intros ->|]. split; [by intros ->|done].
Qed.

Lemma sudden_change_on_reported_percent_witness :
  let rnd : nat → Q := λ _, 0%Q in
  let a := "a@b.co"%string in
  let st0 := stateAfter rnd (initial rnd (Mongo false ∅))
               [PostLogin a; PostSubscribe (Request (Some a) "GOOG");
                SocketRegister "s1" a; Tick] in
  let st := stateAfter rnd st0 [Tick] in
  let out := sentBy rnd st0 [Tick] in
  let info := {| price := 9000; change := -500; changePercent := -526 |} in
  let block := fanoutIdentity st (a, "s1"%string) in
  let pct := parseFloat (changePercent info) in
  let alert :=
    Emit "s1" (priceAlertMsg {| a_ticker := "GOOG"; a_type := sudden_change;
                                a_changePercent := Some pct; a_threshold := None;
                                a_price := parseFloat (price info) |}) in
  (∃ pre post, out = pre ++ block ++ post)
  ∧ (fires block "GOOG" sudden_change = true ↔ (5 < Qabs pct)%Q)
  ∧ (fires out "GOOG" sudden_change = true ↔ (5 < Qabs pct)%Q)
  ∧ ((5 < Qabs pct)%Q → alert ∈ block ∧ alert ∈ out)
  ∧ (changePercent info = 500 →
       fires block "GOOG" sudden_change = false
       ∧ fires out "GOOG" sudden_change = false)
  ∧ (changePercent info = 501 →
       fires block "GOOG" sudden_change = true
       ∧ fires out "GOOG" sudden_change = true)
  ∧ toFixed2 (50001 # 10000) = 500.
Proof.
  intros rnd a st0 st out info block pct alert.
  apply (sudden_change_on_reported_percent rnd st0 st out
           a "s1" {| email := a; subscriptions := Some ["GOOG"%string];
                     alerts := Some {| thresholds := Some [] |} |}
           ["GOOG"%string] "GOOG" info).
  - vm_compute. reflexivity.
  - vm_compute. left.
  - vm_compute. reflexivity.
  - reflexivity.
  - left.
  - vm_compute. reflexivity.
Defined.

(** ** C5: the threshold alerts *)

(** C5.  For every tick, identity and subscribed ticker whose price is
    known and for which the user has a threshold entry (the first one for
    the ticker), a threshold-above alert is sent if and only if the entry has
    an [above] value and the price is at least it, a threshold-below alert if
    and only if the entry has a [below] value and the price is at most it;
    when the price meets both, both are sent in that tick, each with its
    threshold and the price.  The alerts are among the messages the tick
    sends, in the identity's part of them. *)
Theorem threshold_alerts (rnd : nat → Q) (st0 st : server) (out : list emit)
    (e s : string) (u : user) (subs : list string) (t : string)
    (info : priceInfo) (cfg : thresholdCfg) :
  tick rnd st0 = Some (st, out) →
  (e, s) ∈ userSockets st0 →
  findUser st0 e = Resolved (Some u) →
  subscriptions u = Some subs →
  t ∈ subs →
  stockPrices st !! t = Some info →
  List.find (λ c, String.eqb (t_ticker c) t) (thresholdsOf u) = Some cfg →
  let p := parseFloat (price info) in
  let block := fanoutIdentity st (e, s) in
  let alert ty th :=
    Emit s (priceAlertMsg {| a_ticker := t; a_type := ty; a_changePercent := None;
                             a_threshold := Some th; a_price := p |}) in
  (∃ pre post, out = pre ++ block ++ post)
  ∧ (fires block t threshold_above = true ↔ ∃ a, above cfg = Some a ∧ (a <= p)%Q)
  ∧ (fires block t threshold_below = true ↔ ∃ b, below cfg = Some b ∧ (p <= b)%Q)
  ∧ (∀ a, above cfg = Some a → (a <= p)%Q →
       alert threshold_above a ∈ block ∧ alert threshold_above a ∈ out)
  ∧ (∀ b, below cfg = Some b → (p <= b)%Q →
       alert threshold_below b ∈ block ∧ alert threshold_below b ∈ out)
  ∧ (∀ a b, above cfg = Some a → below cfg = Some b → (a <= p)%Q → (p <= b)%Q →
       fires block t threshold_above = true
       ∧ fires block t threshold_below = true
       ∧ fires out t threshold_above = true
       ∧ fires out t threshold_below = true).
Proof.
  intros Ht Hin Hf Hs Hsub Hinfo Hcfg p block alert.
  destruct (tick_out _ _ _ _ Ht) as (-> & Hsock & Hfind).
  rewrite <- Hfind in Hf. rewrite <- Hsock in Hin.
  destruct (broadcast_split st (e, s) Hin) as (pre & post & Hb).
  fold block in Hb.
  assert (Hsent : ∀ m, m ∈ block → m ∈ broadcast st).
  { intros m Hm. rewrite Hb. apply elem_of_app. right. apply elem_of_app. by left. }
  assert (Hfiresout : ∀ ty, fires block t ty = true → fires (broadcast st) t ty = true).
  { intros ty Hty. rewrite Hb, !fires_app, Hty. by rewrite orb_true_r. }
  assert (Hne : subs ≠ []) by (intros ->; by apply elem_of_nil in Hsub).
  assert (Hblock : block = fanoutUser s u subs (stockPrices st)).
  { unfold block. by apply fanoutIdentity_subscribed. }
  assert (Habove : fires block t threshold_above = true
                   ↔ ∃ a, above cfg = Some a ∧ (a <= p)%Q).
  { rewrite Hblock, fires_fanoutUser, fires_alertsOf, Hinfo,
      fires_threshold_above, Hcfg, bool_decide_eq_true_2 by done.
    cbn [andb]. destruct (above cfg) as [a|].
    - unfold ge. rewrite Qle_bool_iff. split; [eauto|]. by intros (? & [= <-] & ?).
    - split; [done|]. by intros (? & ? & _). }
  assert (Hbelow : fires block t threshold_below = true
                   ↔ ∃ b, below cfg = Some b ∧ (p <= b)%Q).
  { rewrite Hblock, fires_fanoutUser, fires_alertsOf, Hinfo,
      fires_threshold_below, Hcfg, bool_decide_eq_true_2 by done.
    cbn [andb]. destruct (below cfg) as [b|].
    - unfold le. rewrite Qle_bool_iff. split; [eauto|]. by intros (? & [= <-] & ?).
    - split; [done|]. by intros (? & ? & _). }
  split; [by exists pre, post|].
  split; [done|]. split; [done|]. split; [|split].
  - intros a Ha Hle.
    assert (Hal : alert threshold_above a ∈ block).
    { rewrite Hblock.
      apply (tickerAlerts_in_block _ _ _ _ t info); [done..|].
      unfold tickerAlerts, thresholdAlerts. rewrite Hcfg, Ha.
      apply Qle_bool_iff in Hle. unfold ge. fold p. rewrite Hle.
      apply elem_of_app. right. apply elem_of_app. left. by left. }
    split; [done|by apply Hsent].
  - intros b Hb' Hle.
    assert (Hal : alert threshold_below b ∈ block).
    { rewrite Hblock.
      apply (tickerAlerts_in_block _ _ _ _ t info); [done..|].
      unfold tickerAlerts, thresholdAlerts. rewrite Hcfg, Hb'.
      apply Qle_bool_iff in Hle. unfold le. fold p. rewrite Hle.
      apply elem_of_app. right. apply elem_of_app. right. by left. }
    split; [done|by apply Hsent].
  - intros a b Ha Hb' Hle1 Hle2.
    assert (H1 : fires block t threshold_above = true) by (apply Habove; eauto).
    assert (H2 : fires block t threshold_below = true) by (apply Hbelow; eauto).
    split; [done|]. split; [done|]. split; by apply Hfiresout.
Qed.

Lemma threshold_alerts_witness :
  let rnd : nat → Q := λ _, 0%Q in
  let a := "a@b.co"%string in
  let cfg := {| t_ticker := "GOOG"; above := Some 95%Q; below := Some 95%Q |} in
  let u := {| email := a; subscriptions := Some ["GOOG"%string];
              alerts := Some {| thresholds := Some [cfg] |} |} in
  let st0 := with_inMemoryUsers
               (with_sockets (initial rnd (Mongo false ∅)) [(a, "s1"%string)])
               {[ a := u ]} in
  let st := stateAfter rnd st0 [Tick] in
  let out := sentBy rnd st0 [Tick] in
  let info := {| price := 9500; change := -500; changePercent := -500 |} in
  let p := parseFloat (price info) in
  let block := fanoutIdentity st (a, "s1"%string) in
  let alert ty th :=
    Emit "s1" (priceAlertMsg {| a_ticker := "GOOG"; a_type := ty;
                                a_changePercent := None;
                                a_threshold := Some th; a_price := p |}) in
  (∃ pre post, out = pre ++ block ++ post)
  ∧ (fires block "GOOG" threshold_above = true
     ↔ ∃ x, above cfg = Some x ∧ (x <= p)%Q)
  ∧ (fires block "GOOG" threshold_below = true
     ↔ ∃ b, below cfg = Some b ∧ (p <= b)%Q)
  ∧ (∀ x, above cfg = Some x → (x <= p)%Q →
       alert threshold_above x ∈ block ∧ alert threshold_above x ∈ out)
  ∧ (∀ b, below cfg = Some b → (p <= b)%Q →
       alert threshold_below b ∈ block ∧ alert threshold_below b ∈ out)
  ∧ (∀ x b, above cfg = Some x → below cfg = Some b → (x <= p)%Q → (p <= b)%Q →
       fires block "GOOG" threshold_above = true
       ∧ fires block "GOOG" threshold_below = true
       ∧ fires out "GOOG" threshold_above = true
       ∧ fires out "GOOG" threshold_below = true).
Proof.
  intros rnd a cfg u st0 st out info p block alert.
  apply (threshold_alerts rnd st0 st out a "s1" u
           ["GOOG"%string] "GOOG" info cfg).
  - vm_compute. reflexivity.
  - left.
  - reflexivity.
  - reflexivity.
  - left.
  - vm_compute. reflexivity.
  - reflexivity.
Defined.

Example both_thresholds_fire :
  let rnd : nat → Q := λ _, 0%Q in
  let a := "a@b.co"%string in
  let cfg := {| t_ticker := "GOOG"; above := Some 95%Q; below := Some 95%Q |} in
  let u := {| email := a; subscriptions := Some ["GOOG"%string];
              alerts := Some {| thresholds := Some [cfg] |} |} in
  let st0 := with_inMemoryUsers
               (with_sockets (initial rnd (Mongo false ∅)) [(a, "s1"%string)])
               {[ a := u ]} in
  List.map (λ m, match msg m with
                 | priceAlertMsg x => Some (a_type x)
                 | stockUpdate _ => None
                 end) (sentBy rnd st0 [Tick])
  = [Some threshold_above; Some threshold_below; None].
Proof. vm_compute. reflexivity. Qed.

(** ** C6: identities without subscriptions, users without thresholds *)

Lemma fanoutUser_thresholds (s : string) (u u' : user) (subs : list string)
    (p : gmap string priceInfo) :
  thresholdsOf u = thresholdsOf u' →
  fanoutUser s u subs p = fanoutUser s u' subs p.
Proof.
  intros Hth. rewrite !fanoutUser_eq. f_equal.
  unfold alertsOf, tickerAlerts, thresholdAlerts. by rewrite Hth.
Qed.

(** C6.  In every tick, an identity whose user is unknown or whose
    subscriptions are empty, missing or null is sent nothing, neither a
    [stockUpdate] nor a [priceAlert]; if it is alone on its socket, the
    socket receives nothing in that tick.  A user whose [alerts] or
    [alerts.thresholds] is missing or null is served as one whose thresholds
    are the empty array.  None of these cases makes the timer throw. *)
Theorem missing_fields_are_empty (rnd : nat → Q) (st0 st : server)
    (out : list emit) (e s : string) (ou : option user) (u2 : user) :
  tick rnd st0 = Some (st, out) →
  (e, s) ∈ userSockets st0 →
  findUser st0 e = Resolved ou →
  (∀ u, ou = Some u → subscriptions u = None ∨ subscriptions u = Some []) →
  alerts u2 = None ∨ alerts u2 = Some {| thresholds := None |} →
  fanoutIdentity st (e, s) = []
  ∧ ((∀ e', (e', s) ∈ userSockets st0 → e' = e) → Forall (λ m, to m ≠ s) out)
  ∧ (∀ s2 subs2,
       fanoutUser s2 u2 subs2 (stockPrices st)
       = fanoutUser s2 (with_thresholds u2 []) subs2 (stockPrices st)).
Proof.
  intros Ht Hin Hf Hnone Hal.
  destruct (tick_out _ _ _ _ Ht) as (-> & Hsock & Hfind).
  rewrite <- Hfind in Hf.
  assert (Hblock : fanoutIdentity st (e, s) = []).
  { unfold fanoutIdentity, guardedSubscriptions. rewrite Hf.
    destruct ou as [u|]; [|done].
    by destruct (Hnone u eq_refl) as [-> | ->]. }
  split; [done|]. split.
  - intros Halone. apply Forall_forall. intros m Hm Hto.
    destruct (broadcast_to _ _ Hm) as (e' & He' & Hm').
    rewrite Hsock, Hto in He'. rewrite (Halone e' He'), Hto, Hblock in Hm'.
    by apply elem_of_nil in Hm'.
  - intros s2 subs2. apply fanoutUser_thresholds.
    unfold thresholdsOf. by destruct Hal as [-> | ->].
Qed.

Lemma missing_fields_are_empty_witness :
  let rnd : nat → Q := λ _, 0%Q in
  let a := "a@b.co"%string in
  let st0 := stateAfter rnd (initial rnd (Mongo false ∅))
               [PostLogin a; SocketRegister "s1" a] in
  let st := stateAfter rnd st0 [Tick] in
  let out := sentBy rnd st0 [Tick] in
  let u2 := {| email := "c@d.eu"; subscriptions := Some ["GOOG"%string];
               alerts := None |} in
  fanoutIdentity st (a, "s1"%string) = []
  ∧ ((∀ e', (e', "s1"%string) ∈ userSockets st0 → e' = a)
     → Forall (λ m, to m ≠ "s1"%string) out)
  ∧ (∀ s2 subs2,
       fanoutUser s2 u2 subs2 (stockPrices st)
       = fanoutUser s2 (with_thresholds u2 []) subs2 (stockPrices st)).
Proof.
  intros rnd a st0 st out u2.
  apply (missing_fields_are_empty rnd st0 st out a "s1" (Some (newUser a)) u2).
  - vm_compute. reflexivity.
  - vm_compute. left.
  - vm_compute. reflexivity.
  - intros u [= <-]. by right.
  - by left.
Defined.


(** ** The registry *)

Section RegistryFacts.

Implicit Types (m pre post : JsMap.t) (k v e s : string).

Lemma get_set_eq k v m : JsMap.get k (JsMap.set k v m) = Some v.
Proof.
  induction m as [|[k' v'] m IH]; simpl.
  - by rewrite String.eqb_refl.
  - destruct (String.eqb_spec k' k) as [->|Hne]; simpl.
    + by rewrite String.eqb_refl.
    + by destruct (String.eqb_spec k' k).
Qed.

Lemma elem_of_set k v m (p : string * string) :
  p ∈ JsMap.set k v m → p = (k, v) ∨ p ∈ m.
Proof.
  induction m as [|[k' v'] m IH]; simpl.
  - intros ->%list_elem_of_singleton. by left.
  - destruct (String.eqb_spec k' k) as [->|Hne].
    + intros [->|Hp]%elem_of_cons; [by left|]. right. by right.
    + intros [->|Hp]%elem_of_cons; [right; by left|].
      destruct (IH Hp) as [->|Hin]; [by left|]. right. by right.
Qed.

Lemma set_registered k v m : (k, v) ∈ JsMap.set k v m.
Proof.
  induction m as [|[k' v'] m IH]; simpl; [by left|].
  destruct (String.eqb_spec k' k); [by left|by right].
Qed.

Lemma keys_set k v m k0 :
  k0 ∈ JsMap.keys (JsMap.set k v m) → k0 = k ∨ k0 ∈ JsMap.keys m.
Proof.
  unfold JsMap.keys. intros ([k1 v1] & -> & Hp)%list_elem_of_fmap.
  destruct (elem_of_set _ _ _ _ Hp) as [[= -> ->]|Hin]; [by left|].
  right. apply list_elem_of_fmap. by exists (k1, v1).
Qed.

Lemma set_NoDup k v m :
  NoDup (JsMap.keys m) → NoDup (JsMap.keys (JsMap.set k v m)).
Proof.
  induction m as [|[k' v'] m IH]; simpl.
  - intros _. apply NoDup_singleton.
  - intros [Hnotin Hnd]%NoDup_cons.
    destruct (String.eqb_spec k' k) as [->|Hne]; simpl.
    + by apply NoDup_cons.
    + apply NoDup_cons. split; [|by apply IH].
      intros [->|Hin]%keys_set; done.
Qed.

Lemma elem_of_delete k m (p : string * string) :
  p ∈ JsMap.delete k m → p ∈ m.
Proof.
  induction m as [|[k' v'] m IH]; simpl; [done|].
  destruct (String.eqb_spec k' k) as [->|Hne].
  - intros Hp. by right.
  - intros [->|Hp]%elem_of_cons; [by left|]. right. by apply IH.
Qed.

Lemma delete_NoDup k m :
  NoDup (JsMap.keys m) → NoDup (JsMap.keys (JsMap.delete k m)).
Proof.
  induction m as [|[k' v'] m IH]; simpl; [done|].
  intros [Hnotin Hnd]%NoDup_cons.
  destruct (String.eqb_spec k' k) as [->|Hne]; simpl; [done|].
  apply NoDup_cons. split; [|by apply IH].
  unfold JsMap.keys. intros ([k1 v1] & Hk & Hp)%list_elem_of_fmap.
  simpl in Hk. subst k1. apply Hnotin, list_elem_of_fmap.
  exists (k', v1). split; [done|]. by eapply elem_of_delete.
Qed.

Lemma delete_split e s pre post :
  e ∉ JsMap.keys pre → JsMap.delete e (pre ++ (e, s) :: post) = pre ++ post.
Proof.
  induction pre as [|[k' v'] pre IH]; simpl.
  - intros _. by rewrite String.eqb_refl.
  - intros [Hne Hnotin]%not_elem_of_cons.
    destruct (String.eqb_spec k' e) as [->|_]; [done|]. by rewrite IH.
Qed.

Lemma firstWithSocket_split s m e :
  firstWithSocket s m = Some e →
  ∃ pre post, m = pre ++ (e, s) :: post ∧ unregistered s pre.
Proof.
  induction m as [|[k' v'] m IH]; simpl; [done|].
  destruct (String.eqb_spec v' s) as [->|Hne].
  - intros [= ->]. exists [], m. split; [done|]. constructor.
  - intros (pre & post & -> & Hpre)%IH.
    exists ((k', v') :: pre), post. split; [done|]. by constructor.
Qed.

Lemma firstWithSocket_None s m :
  firstWithSocket s m = None → unregistered s m.
Proof.
  induction m as [|[k' v'] m IH]; simpl; [constructor|].
  destruct (String.eqb_spec v' s) as [->|Hne]; [done|].
  intros H. constructor; [done|by apply IH].
Qed.

Lemma unregistered_delete s k m :
  unregistered s m → unregistered s (JsMap.delete k m).
Proof.
  unfold unregistered. rewrite !Forall_forall.
  intros H p Hp. by apply H, (elem_of_delete k).
Qed.

Lemma unregistered_set s k v m :
  v ≠ s → unregistered s m → unregistered s (JsMap.set k v m).
Proof.
  unfold unregistered. rewrite !Forall_forall.
  intros Hv H p [->|Hp]%elem_of_set; [done|by apply H].
Qed.

End RegistryFacts.

(** What the [disconnect] handler does to a registry with unique keys. *)
Lemma onDisconnect_cases (st : server) (s : string) :
  NoDup (JsMap.keys (userSockets st)) →
  (unregistered s (userSockets st) ∧ onDisconnect st s = st)
  ∨ (∃ pre e post,
       userSockets st = pre ++ (e, s) :: post
       ∧ unregistered s pre
       ∧ userSockets (onDisconnect st s) = pre ++ post
       ∧ (e ∉ JsMap.keys pre) ∧ (e ∉ JsMap.keys post)).
Proof.
  intros Hnd. unfold onDisconnect.
  destruct (firstWithSocket s (userSockets st)) as [e|] eqn:Hfirst.
  - right. destruct (firstWithSocket_split _ _ _ Hfirst) as (pre & post & Hm & Hpre).
    exists pre, e, post. rewrite Hm in Hnd |- *.
    unfold JsMap.keys in Hnd. rewrite fmap_app, fmap_cons in Hnd.
    apply NoDup_app in Hnd as (_ & Hdisj & Hnd).
    apply NoDup_cons in Hnd as [Hpost _].
    assert (He : e ∉ JsMap.keys pre).
    { intros Hin. apply (Hdisj e Hin). by left. }
    split; [done|]. split; [done|]. split; [|done].
    simpl. by apply delete_split.
  - left. split; [by apply firstWithSocket_None|done].
Qed.

(** ** C10: what a disconnect removes *)

(** C10.  Processing a disconnect removes at most one registry entry: the
    first one, in the order of the registry, whose socket id is that of the
    disconnecting socket.  Every other entry stays, so another identity
    registered under the same socket id keeps its mapping to it. *)
Theorem disconnect_removes_first_match (st : server) (socketId : string) :
  NoDup (JsMap.keys (userSockets st)) →
  let st' := onDisconnect st socketId in
  (unregistered socketId (userSockets st) ∧ st' = st)
  ∨ (∃ pre e post,
       userSockets st = pre ++ (e, socketId) :: post
       ∧ unregistered socketId pre
       ∧ userSockets st' = pre ++ post
       ∧ length (userSockets st) = S (length (userSockets st'))
       ∧ (∀ e', e' ≠ e → (e', socketId) ∈ userSockets st →
            (e', socketId) ∈ userSockets st')
       ∧ (∀ p, p ≠ (e, socketId) → p ∈ userSockets st → p ∈ userSockets st')).
Proof.
  intros Hnd st'.
  destruct (onDisconnect_cases st socketId Hnd)
    as [?|(pre & e & post & Hm & Hpre & Hm' & _ & _)]; [by left|].
  right. exists pre, e, post. fold st' in Hm'. rewrite Hm, Hm'.
  split; [done|]. split; [done|]. split; [done|].
  split; [rewrite !length_app; simpl; lia|].
  assert (Hrest : ∀ p, p ≠ (e, socketId) →
            p ∈ pre ++ (e, socketId) :: post → p ∈ pre ++ post).
  { intros p Hp. rewrite !elem_of_app, elem_of_cons.
    intros [?|[?|?]]; [by left|done|by right]. }
  split; [|done]. intros e' Hne. apply Hrest. congruence.
Qed.

Lemma disconnect_removes_first_match_witness :
  let rnd : nat → Q := λ _, 0%Q in
  let st := stateAfter rnd (initial rnd (Mongo false ∅))
              [SocketRegister "s1" "a@b.co"; SocketRegister "s1" "c@d.eu"] in
  let st' := onDisconnect st "s1" in
  (unregistered "s1" (userSockets st) ∧ st' = st)
  ∨ (∃ pre e post,
       userSockets st = pre ++ (e, "s1"%string) :: post
       ∧ unregistered "s1" pre
       ∧ userSockets st' = pre ++ post
       ∧ length (userSockets st) = S (length (userSockets st'))
       ∧ (∀ e', e' ≠ e → (e', "s1"%string) ∈ userSockets st →
            (e', "s1"%string) ∈ userSockets st')
       ∧ (∀ p, p ≠ (e, "s1"%string) → p ∈ userSockets st → p ∈ userSockets st')).
Proof.
  intros rnd st st'.
  apply (disconnect_removes_first_match st "s1").
  vm_compute. by apply (bool_decide_unpack _).
Defined.

Example disconnect_leaves_second_identity :
  let rnd : nat → Q := λ _, 0%Q in
  let st := stateAfter rnd (initial rnd (Mongo false ∅))
              [SocketRegister "s1" "a@b.co"; SocketRegister "s1" "c@d.eu"] in
  userSockets st = [("a@b.co", "s1"); ("c@d.eu", "s1")]%string
  ∧ userSockets (onDisconnect st "s1") = [("c@d.eu", "s1")]%string.
Proof. split; vm_compute; reflexivity. Qed.

(** ** C7: registering and unregistering over time *)

Lemma login_sockets (st : server) (e : string) :
  userSockets (login st e) = userSockets st.
Proof. unfold login, findOne. by repeat case_match. Qed.

Lemma subscribe_sockets (st : server) (req : request) :
  userSockets (subscribe st req).1 = userSockets st.
Proof. unfold subscribe, findOne. by repeat case_match. Qed.

Lemma unsubscribe_sockets (st : server) (req : request) :
  userSockets (unsubscribe st req).1 = userSockets st.
Proof. unfold unsubscribe, findOne. by repeat case_match. Qed.

Lemma onRegister_sockets (st : server) (s e : string) :
  userSockets (onRegister st s e).1 = JsMap.set e s (userSockets st).
Proof. unfold onRegister. by repeat case_match. Qed.

Lemma onRegister_to (st : server) (s e : string) (m : emit) :
  m ∈ (onRegister st s e).2 → to m = s.
Proof.
  unfold onRegister. repeat case_match; simpl;
    intros Hm; try by apply elem_of_nil in Hm.
  apply list_elem_of_singleton in Hm. by subst m.
Qed.

(** Case of a [register] event in a step: the new state and its messages. *)
Ltac register_step Hstep st s e :=
  let Hs := fresh "Hsock" in
  let Ht := fresh "Hto" in
  pose proof (onRegister_sockets st s e) as Hs;
  pose proof (onRegister_to st s e) as Ht;
  destruct (onRegister st s e) as [? ?]; simpl in Hs, Ht;
  injection Hstep as <- <-.

Lemma onDisconnect_NoDup (st : server) (s : string) :
  NoDup (JsMap.keys (userSockets st)) →
  NoDup (JsMap.keys (userSockets (onDisconnect st s))).
Proof.
  intros Hnd. unfold onDisconnect. case_match; [|done].
  by apply delete_NoDup.
Qed.

(** At most one socket per identity is an invariant of every event. *)
Lemma step_NoDup (rnd : nat → Q) (st st' : server) (ev : event) (out : list emit) :
  NoDup (JsMap.keys (userSockets st)) →
  step rnd st ev = Some (st', out) →
  NoDup (JsMap.keys (userSockets st')).
Proof.
  intros Hnd Hstep. destruct ev; simpl in Hstep.
  - destruct (tick_out _ _ _ _ Hstep) as (_ & -> & _). done.
  - register_step Hstep st socketId e. rewrite Hsock. by apply set_NoDup.
  - injection Hstep as <- _. by apply onDisconnect_NoDup.
  - injection Hstep as <- _. by rewrite login_sockets.
  - injection Hstep as <- _. by rewrite subscribe_sockets.
  - injection Hstep as <- _. by rewrite unsubscribe_sockets.
  - by injection Hstep as <- _.
Qed.

Lemma run_NoDup (rnd : nat → Q) (evs : list event) :
  ∀ st st' out, NoDup (JsMap.keys (userSockets st)) →
    run rnd st evs = Some (st', out) →
    NoDup (JsMap.keys (userSockets st')).
Proof.
  induction evs as [|ev evs IH]; intros st st' out Hnd Hrun; simpl in Hrun.
  - by injection Hrun as <- _.
  - destruct (step rnd st ev) as [[st1 out1]|] eqn:Hs; [|done].
    destruct (run rnd st1 evs) as [[st2 out2]|] eqn:Hr; [|done].
    injection Hrun as <- _.
    eapply IH; [|exact Hr]. by eapply step_NoDup.
Qed.

(** While a socket id is in no registry entry and is not registered anew,
    no event sends anything to it. *)
Lemma step_unregistered (rnd : nat → Q) (s : string) (st st' : server)
    (ev : event) (out : list emit) :
  unregistered s (userSockets st) →
  (∀ e, ev ≠ SocketRegister s e) →
  step rnd st ev = Some (st', out) →
  unregistered s (userSockets st') ∧ Forall (λ m, to m ≠ s) out.
Proof.
  intros Hun Hev Hstep. destruct ev; simpl in Hstep.
  - destruct (tick_out _ _ _ _ Hstep) as (-> & Hsock & _).
    rewrite Hsock. split; [done|]. apply Forall_forall. intros m Hm Hto.
    destruct (broadcast_to _ _ Hm) as (e & He & _).
    rewrite Hsock, Hto in He. unfold unregistered in Hun.
    rewrite Forall_forall in Hun. by apply (Hun _ He).
  - assert (socketId ≠ s) by (intros ->; by apply (Hev e)).
    register_step Hstep st socketId e. rewrite Hsock.
    split; [by apply unregistered_set|].
    apply Forall_forall. intros m Hm. by rewrite (Hto _ Hm).
  - injection Hstep as <- <-. split; [|constructor].
    unfold onDisconnect. case_match; [|done]. by apply unregistered_delete.
  - injection Hstep as <- <-. by rewrite login_sockets.
  - injection Hstep as <- <-. by rewrite subscribe_sockets.
  - injection Hstep as <- <-. by rewrite unsubscribe_sockets.
  - by injection Hstep as <- <-.
Qed.

Lemma run_unregistered (rnd : nat → Q) (s : string) (evs : list event) :
  ∀ st st' out, unregistered s (userSockets st) →
    Forall (λ ev, ∀ e, ev ≠ SocketRegister s e) evs →
    run rnd st evs = Some (st', out) →
    Forall (λ m, to m ≠ s) out.
Proof.
  induction evs as [|ev evs IH]; intros st st' out Hun Hevs Hrun; simpl in Hrun.
  - injection Hrun as _ <-. constructor.
  - apply Forall_cons in Hevs as [Hev Hevs].
    destruct (step rnd st ev) as [[st1 out1]|] eqn:Hs; [|done].
    destruct (run rnd st1 evs) as [[st2 out2]|] eqn:Hr; [|done].
    injection Hrun as _ <-.
    destruct (step_unregistered _ _ _ _ _ _ Hun Hev Hs) as [Hun1 Hout1].
    apply Forall_app. split; [done|]. by eapply IH.
Qed.

(** A socket that a single identity was registered under is in no entry
    once its disconnect is processed. *)
Lemma onDisconnect_unregistered (st : server) (s : string) :
  NoDup (JsMap.keys (userSockets st)) →
  (∀ e1 e2, (e1, s) ∈ userSockets st → (e2, s) ∈ userSockets st → e1 = e2) →
  unregistered s (userSockets (onDisconnect st s)).
Proof.
  intros Hnd Hone.
  destruct (onDisconnect_cases st s Hnd)
    as [[Hun ->]|(pre & e & post & Hm & Hpre & -> & _ & Hpost)]; [done|].
  apply Forall_app. split; [done|].
  apply Forall_forall. intros [e' s'] Hin Hs. simpl in Hs. subst s'.
  assert (e' = e) as ->.
  { apply Hone; rewrite Hm, elem_of_app, elem_of_cons; [|by right; left].
    right. by right. }
  apply Hpost, list_elem_of_fmap. by exists (e, s).
Qed.

Lemma broadcast_in (st : server) (entry : string * string) (m : emit) :
  entry ∈ userSockets st → m ∈ fanoutIdentity st entry → m ∈ broadcast st.
Proof.
  intros Hin Hm. unfold broadcast. apply list_elem_of_In, in_flat_map.
  exists entry. split; by apply list_elem_of_In.
Qed.

Lemma keys_unique (m : JsMap.t) (k v1 v2 : string) :
  NoDup (JsMap.keys m) → (k, v1) ∈ m → (k, v2) ∈ m → v1 = v2.
Proof.
  induction m as [|[k' v'] m IH]; simpl; [by intros _ ?%elem_of_nil|].
  intros [Hnotin Hnd]%NoDup_cons H1 H2.
  assert (Hk : ∀ v, (k', v) ∈ m → False).
  { intros v Hv. apply Hnotin, list_elem_of_fmap. by exists (k', v). }
  apply elem_of_cons in H1 as [E1|H1]; apply elem_of_cons in H2 as [E2|H2].
  - congruence.
  - injection E1 as -> ->. by destruct (Hk v2).
  - injection E2 as -> ->. by destruct (Hk v1).
  - by apply IH.
Qed.

Lemma onRegister_fst (st : server) (s e : string) :
  (onRegister st s e).1 = with_sockets st (JsMap.set e s (userSockets st)).
Proof. unfold onRegister. by repeat case_match. Qed.

Lemma onDisconnect_prices (st : server) (s : string) :
  stockPrices (onDisconnect st s) = stockPrices st.
Proof. unfold onDisconnect. by case_match. Qed.

(** The claim fails for a socket registered under two identities.  Both
    a@b.co and c@d.eu register on socket s1; when s1 disconnects only the
    entry of a@b.co is removed, and the next tick still sends the
    [stockUpdate] of c@d.eu to s1. *)
Lemma shared_channel_counterexample :
  let rnd : nat → Q := λ _, 0%Q in
  let a := "a@b.co"%string in
  let c := "c@d.eu"%string in
  ∃ st out0 st',
    run rnd (initial rnd (Mongo false ∅))
        [PostLogin a; PostLogin c; PostSubscribe (Request (Some c) "GOOG");
         SocketRegister "s1" a; SocketRegister "s1" c;
         SocketDisconnect "s1"] = Some (st, out0)
    ∧ userSockets st = [(c, "s1"%string)]
    ∧ tick rnd st
      = Some (st', [Emit "s1" (stockUpdate
                      {[ "GOOG"%string :=
                           {| price := 9500; change := -500; changePercent := -500 |} ]})])
    ∧ ¬ (∀ st2 out, tick rnd st = Some (st2, out) →
           Forall (λ m, to m ≠ "s1"%string) out).
Proof.
  intros rnd a c.
  destruct (run rnd (initial rnd (Mongo false ∅)) _) as [[st o0]|] eqn:Hrun;
    vm_compute in Hrun; [|done].
  injection Hrun as <- <-.
  eexists _, _, _. split; [reflexivity|].
  split; [reflexivity|].
  split; [vm_compute; reflexivity|].
  intros H. specialize (H _ _ eq_refl).
  apply Forall_cons in H as [H _]. by apply H.
Qed.

(** C7, amended.  After the disconnect of a socket that at most one
    identity was registered under, no later tick, and no other event short
    of a new registration of that socket id, sends any message to it.  After
    an identity registers on a socket, the registry maps it to that socket
    and to no other, the registry never holds two sockets for one identity,
    and the next tick sends the identity's [stockUpdate] to the new
    socket. *)
Theorem registry_lifecycle (rnd : nat → Q) (st : server) (s : string) :
  priced (stockPrices st) →
  NoDup (JsMap.keys (userSockets st)) →
  (∀ e1 e2, (e1, s) ∈ userSockets st → (e2, s) ∈ userSockets st → e1 = e2) →
  let st_d := onDisconnect st s in
  (∀ evs, Forall (λ ev, ∀ e, ev ≠ SocketRegister s e) evs →
     ∃ st' out, run rnd st_d evs = Some (st', out)
       ∧ Forall (λ m, to m ≠ s) out
       ∧ NoDup (JsMap.keys (userSockets st')))
  ∧ (∀ evs st_e out_e s' e u subs,
       run rnd st_d evs = Some (st_e, out_e) →
       findUser st_e e = Resolved (Some u) →
       subscriptions u = Some subs →
       subs ≠ [] →
       let st1 := (onRegister st_e s' e).1 in
       NoDup (JsMap.keys (userSockets st1))
       ∧ (∀ s0, (e, s0) ∈ userSockets st1 ↔ s0 = s')
       ∧ ∃ st2 out, tick rnd st1 = Some (st2, out)
           ∧ Emit s' (stockUpdate (restricted (stockPrices st2) subs)) ∈ out).
Proof.
  intros Hp Hnd Hone st_d.
  assert (Hp_d : priced (stockPrices st_d)).
  { unfold st_d. by rewrite onDisconnect_prices. }
  assert (Hnd_d : NoDup (JsMap.keys (userSockets st_d))).
  { by apply onDisconnect_NoDup. }
  split.
  - intros evs Hevs.
    destruct (run_priced rnd evs st_d Hp_d) as (st' & out & Hrun & _).
    exists st', out. split; [done|]. split.
    + eapply run_unregistered; [|exact Hevs|exact Hrun].
      by apply onDisconnect_unregistered.
    + by eapply run_NoDup.
  - intros evs st_e out_e s' e u subs Hrun Hf Hs Hne st1.
    assert (Hnd_e : NoDup (JsMap.keys (userSockets st_e))).
    { by eapply run_NoDup. }
    assert (Hp_e : priced (stockPrices st_e)).
    { destruct (run_priced rnd evs st_d Hp_d) as (st' & out & Hrun' & Hp').
      rewrite Hrun in Hrun'. by injection Hrun' as -> _. }
    assert (Hst1 : st1 = with_sockets st_e (JsMap.set e s' (userSockets st_e))).
    { apply onRegister_fst. }
    assert (Hnd1 : NoDup (JsMap.keys (userSockets st1))).
    { rewrite Hst1. simpl. by apply set_NoDup. }
    assert (Hin1 : (e, s') ∈ userSockets st1).
    { rewrite Hst1. simpl. apply set_registered. }
    split; [done|]. split.
    { intros s0. split; [|by intros ->].
      intros Hin0. by apply (keys_unique _ e s0 s' Hnd1). }
    destruct (tick_priced rnd st1) as (st2 & Ht & _ & Hsock & Hmc & Hdb & Hmem & _).
    { intros t Ht. eapply priced_defined; [|exact Ht]. by rewrite Hst1. }
    exists st2, (broadcast st2). split; [done|].
    apply (broadcast_in st2 (e, s')); [by rewrite Hsock|].
    assert (Hf2 : findUser st2 e = Resolved (Some u)).
    { rewrite <- Hf. unfold findUser. rewrite Hmc, Hdb, Hmem. by rewrite Hst1. }
    rewrite (fanoutIdentity_subscribed _ _ _ _ _ Hf2 Hs Hne), fanoutUser_eq.
    apply elem_of_app. right. by left.
Qed.

Lemma registry_lifecycle_witness :
  let rnd : nat → Q := λ _, 0%Q in
  let a := "a@b.co"%string in
  let st := stateAfter rnd (initial rnd (Mongo false ∅))
              [PostLogin a; PostSubscribe (Request (Some a) "GOOG");
               SocketRegister "s1" a] in
  let st_d := onDisconnect st "s1" in
  (∀ evs, Forall (λ ev, ∀ e, ev ≠ SocketRegister "s1" e) evs →
     ∃ st' out, run rnd st_d evs = Some (st', out)
       ∧ Forall (λ m, to m ≠ "s1"%string) out
       ∧ NoDup (JsMap.keys (userSockets st')))
  ∧ (∀ evs st_e out_e s' e u subs,
       run rnd st_d evs = Some (st_e, out_e) →
       findUser st_e e = Resolved (Some u) →
       subscriptions u = Some subs →
       subs ≠ [] →
       let st1 := (onRegister st_e s' e).1 in
       NoDup (JsMap.keys (userSockets st1))
       ∧ (∀ s0, (e, s0) ∈ userSockets st1 ↔ s0 = s')
       ∧ ∃ st2 out, tick rnd st1 = Some (st2, out)
           ∧ Emit s' (stockUpdate (restricted (stockPrices st2) subs)) ∈ out).
Proof.
  intros rnd a st st_d.
  apply (registry_lifecycle rnd st "s1").
  - change (priced (initPrices rnd).1). apply initPrices_priced.
    intros i. discriminate.
  - vm_compute. by apply (bool_decide_unpack _).
  - intros e1 e2 H1 H2. vm_compute in H1, H2.
    apply list_elem_of_singleton in H1, H2. congruence.
Defined.

Example reregistration_resumes :
  let rnd : nat → Q := λ _, 0%Q in
  let a := "a@b.co"%string in
  sentBy rnd (initial rnd (Mongo false ∅))
    [PostLogin a; PostSubscribe (Request (Some a) "GOOG");
     SocketRegister "s1" a; SocketDisconnect "s1"; Tick;
     SocketRegister "s2" a; Tick]
  = [Emit "s1" (stockUpdate
       {[ "GOOG"%string := {| price := 10000; change := -1000; changePercent := -200 |} ]});
     Emit "s2" (stockUpdate
       {[ "GOOG"%string := {| price := 9500; change := -500; changePercent := -500 |} ]});
     Emit "s2" (priceAlertMsg
       {| a_ticker := "GOOG"; a_type := sudden_change;
          a_changePercent := Some (-526 # 100)%Q; a_threshold := None;
          a_price := (9000 # 100)%Q |});
     Emit "s2" (stockUpdate
       {[ "GOOG"%string := {| price := 9000; change := -500; changePercent := -526 |} ]})].
Proof. vm_compute. reflexivity. Qed.

(** ** C8: the [stockUpdate] sent on registration *)

(** C8.  Processing a [register] event for an identity whose user has
    non-empty subscriptions sends, in that very event and to the registering
    socket, exactly one message: a [stockUpdate] that holds the current
    prices of the subscribed tickers and of no other.  No alert is evaluated,
    and the prices are left as they are. *)
Theorem register_sends_current_prices (rnd : nat → Q) (st : server)
    (socketId e : string) (u : user) (subs : list string) :
  findUser st e = Resolved (Some u) →
  subscriptions u = Some subs →
  subs ≠ [] →
  let m := restricted (stockPrices st) subs in
  ∃ st', step rnd st (SocketRegister socketId e)
         = Some (st', [Emit socketId (stockUpdate m)])
    ∧ (∀ t, m !! t = if bool_decide (t ∈ subs) then stockPrices st !! t else None)
    ∧ ((∀ t, t ∈ subs → is_Some (stockPrices st !! t)) → dom m = list_to_set subs)
    ∧ stockPrices st' = stockPrices st
    ∧ JsMap.get e (userSockets st') = Some socketId.
Proof.
  intros Hf Hs Hne m.
  exists (with_sockets st (JsMap.set e socketId (userSockets st))).
  split.
  { simpl. unfold onRegister.
    assert (Hf' : findUser (with_sockets st (JsMap.set e socketId (userSockets st))) e
                  = Resolved (Some u)) by exact Hf.
    rewrite Hf'. unfold guardedSubscriptions. rewrite Hs.
    by destruct subs. }
  split; [intros t; apply restricted_lookup|].
  split; [|split; [done|apply get_set_eq]].
  intros Hdef. apply set_eq. intros t.
  rewrite elem_of_dom, elem_of_list_to_set. unfold m.
  rewrite restricted_lookup. case_bool_decide as Ht.
  - split; [done|]. intros _. by apply Hdef.
  - split; [by intros [? ?]|done].
Qed.

Lemma register_sends_current_prices_witness :
  let rnd : nat → Q := λ _, 0%Q in
  let a := "a@b.co"%string in
  let st := stateAfter rnd (initial rnd (Mongo false ∅))
              [PostLogin a; PostSubscribe (Request (Some a) "GOOG");
               PostSubscribe (Request (Some a) "NVDA"); Tick] in
  let subs := ["GOOG"; "NVDA"]%string in
  let m := restricted (stockPrices st) subs in
  ∃ st', step rnd st (SocketRegister "s1" a)
         = Some (st', [Emit "s1" (stockUpdate m)])
    ∧ (∀ t, m !! t = if bool_decide (t ∈ subs) then stockPrices st !! t else None)
    ∧ ((∀ t, t ∈ subs → is_Some (stockPrices st !! t)) → dom m = list_to_set subs)
    ∧ stockPrices st' = stockPrices st
    ∧ JsMap.get a (userSockets st') = Some "s1"%string.
Proof.
  intros rnd a st subs m.
  apply (register_sends_current_prices rnd st "s1" a
           {| email := a; subscriptions := Some subs;
              alerts := Some {| thresholds := Some [] |} |} subs).
  - vm_compute. reflexivity.
  - reflexivity.
  - discriminate.
Defined.

(** ** C9: subscribing and unsubscribing *)

Lemma with_subscriptions_id (u : user) (subs : list string) :
  subscriptions u = Some subs → with_subscriptions u subs = u.
Proof. destruct u; simpl. by intros ->. Qed.

Lemma with_inMemoryUsers_id (st : server) :
  with_inMemoryUsers st (inMemoryUsers st) = st.
Proof. by destruct st. Qed.

Lemma with_docs_id (st : server) : with_docs st (docs (db st)) = st.
Proof. destruct st as [? ? ? ? [? ?] ?]. done. Qed.

Lemma filter_absent (t : string) (subs : list string) :
  t ∉ subs → filter (λ sub, sub ≠ t) subs = subs.
Proof.
  induction subs as [|x subs IH]; [done|].
  intros [Hne Hnotin]%not_elem_of_cons.
  rewrite filter_cons_True by done. by rewrite IH.
Qed.

Lemma findOne_Some (d : mongo) (e : string) (u : user) :
  findOne d e = Resolved (Some u) → docs d !! e = Some u.
Proof. unfold findOne. destruct (reachable d); congruence. Qed.

Lemma dupFree_insert_docs (st : server) (e : string) (u' : user) :
  dupFree st →
  (∀ subs, subscriptions u' = Some subs → NoDup subs) →
  dupFree (with_docs st (<[e := u']> (docs (db st)))).
Proof.
  intros Hd Hu' e0 u0 subs0 [H|H] Hs; simpl in H.
  - destruct (decide (e = e0)) as [->|Hne].
    + rewrite lookup_insert_eq in H. injection H as <-. by apply Hu'.
    + rewrite lookup_insert_ne in H by done. eapply Hd; [by left|done].
  - eapply Hd; [by right|done].
Qed.

Lemma dupFree_insert_inMemoryUsers (st : server) (e : string) (u' : user) :
  dupFree st →
  (∀ subs, subscriptions u' = Some subs → NoDup subs) →
  dupFree (with_inMemoryUsers st (<[e := u']> (inMemoryUsers st))).
Proof.
  intros Hd Hu' e0 u0 subs0 [H|H] Hs; simpl in H.
  - eapply Hd; [by left|done].
  - destruct (decide (e = e0)) as [->|Hne].
    + rewrite lookup_insert_eq in H. injection H as <-. by apply Hu'.
    + rewrite lookup_insert_ne in H by done. eapply Hd; [by right|done].
Qed.

Lemma NoDup_push (t : string) (subs : list string) :
  NoDup subs → negb (includes t subs) = true → NoDup (subs ++ [t]).
Proof.
  intros Hnd Hinc. apply negb_true_iff, bool_decide_eq_false in Hinc.
  apply NoDup_app. split; [done|]. split; [|apply NoDup_singleton].
  by intros x Hx ->%list_elem_of_singleton.
Qed.

Lemma subscribe_dupFree (st : server) (req : request) :
  dupFree st → dupFree (subscribe st req).1.
Proof.
  intros Hd. unfold subscribe.
  destruct (sessionUser req) as [e|]; [|done].
  destruct (negb (includes _ SUPPORTED_STOCKS)); [done|].
  destruct (isMongoConnected st).
  - unfold findOne. destruct (reachable (db st)); [|done].
    destruct (docs (db st) !! e) as [u|] eqn:Hu; [|done].
    destruct (subscriptions u) as [subs|] eqn:Hs; [|done].
    destruct (negb (includes (body_ticker req) subs)) eqn:Hinc; [|done].
    apply dupFree_insert_docs; [done|]. intros subs' [= <-].
    apply NoDup_push; [|done]. eapply Hd; [by left|done].
  - destruct (inMemoryUsers st !! e) as [u|] eqn:Hu; [|done].
    destruct (subscriptions u) as [subs|] eqn:Hs; [|done].
    destruct (negb (includes (body_ticker req) subs)) eqn:Hinc; [|done].
    apply dupFree_insert_inMemoryUsers; [done|]. intros subs' [= <-].
    apply NoDup_push; [|done]. eapply Hd; [by right|done].
Qed.

Lemma unsubscribe_dupFree (st : server) (req : request) :
  dupFree st → dupFree (unsubscribe st req).1.
Proof.
  intros Hd. unfold unsubscribe.
  destruct (sessionUser req) as [e|]; [|done].
  destruct (isMongoConnected st).
  - unfold findOne. destruct (reachable (db st)); [|done].
    destruct (docs (db st) !! e) as [u|] eqn:Hu; [|done].
    destruct (subscriptions u) as [subs|] eqn:Hs; [|done].
    apply dupFree_insert_docs; [done|]. intros subs' [= <-].
    apply NoDup_filter. eapply Hd; [by left|done].
  - destruct (inMemoryUsers st !! e) as [u|] eqn:Hu; [|done].
    destruct (subscriptions u) as [subs|] eqn:Hs; [|done].
    apply dupFree_insert_inMemoryUsers; [done|]. intros subs' [= <-].
    apply NoDup_filter. eapply Hd; [by right|done].
Qed.

Lemma login_dupFree (st : server) (e : string) :
  dupFree st → dupFree (login st e).
Proof.
  intros Hd. unfold login. destruct (isMongoConnected st).
  - destruct (findOne (db st) e) as [|[u|]]; [done..|].
    apply dupFree_insert_docs; [done|]. intros subs [= <-]. constructor.
  - destruct (inMemoryUsers st !! e); [done|].
    apply dupFree_insert_inMemoryUsers; [done|]. intros subs [= <-]. constructor.
Qed.

Lemma step_dupFree (rnd : nat → Q) (st st' : server) (ev : event)
    (out : list emit) :
  dupFree st → step rnd st ev = Some (st', out) → dupFree st'.
Proof.
  intros Hd Hstep. destruct ev; simpl in Hstep.
  - unfold tick in Hstep. destruct (updatePrices _ _ _) as [[p n]|]; [|done].
    by injection Hstep as <- _.
  - pose proof (onRegister_fst st socketId e) as Hfst.
    destruct (onRegister st socketId e) as [st1 o1]. simpl in Hfst.
    injection Hstep as <- _. by subst st1.
  - injection Hstep as <- _. unfold onDisconnect. by case_match.
  - injection Hstep as <- _. by apply login_dupFree.
  - injection Hstep as <- _. by apply subscribe_dupFree.
  - injection Hstep as <- _. by apply unsubscribe_dupFree.
  - by injection Hstep as <- _.
Qed.

Lemma run_dupFree (rnd : nat → Q) (evs : list event) :
  ∀ st st' out, dupFree st → run rnd st evs = Some (st', out) → dupFree st'.
Proof.
  induction evs as [|ev evs IH]; intros st st' out Hd Hrun; simpl in Hrun.
  - by injection Hrun as <- _.
  - destruct (step rnd st ev) as [[st1 out1]|] eqn:Hs; [|done].
    destruct (run rnd st1 evs) as [[st2 out2]|] eqn:Hr; [|done].
    injection Hrun as <- _.
    eapply IH; [|exact Hr]. by eapply step_dupFree.
Qed.

Lemma stateAfter_dupFree (rnd : nat → Q) (st : server) (evs : list event) :
  dupFree st → dupFree (stateAfter rnd st evs).
Proof.
  intros Hd. unfold stateAfter.
  destruct (run rnd st evs) as [[st' out]|] eqn:Hrun; [|done].
  by eapply run_dupFree.
Qed.

Lemma initial_dupFree (rnd : nat → Q) (b : bool) :
  dupFree (initial rnd (Mongo b ∅)).
Proof. intros e u subs [H|H]; simpl in H; by rewrite lookup_empty in H. Qed.

(** C9.  For a signed-in user that the store in use knows: subscribing to a
    supported ticker already in the subscriptions answers success with the
    unchanged list and changes nothing in the state, and unsubscribing from
    a ticker not in the subscriptions does the same.  Whatever the request,
    both endpoints keep every subscription list free of duplicates, and so
    does every sequence of events. *)
Theorem subscribe_idempotent (rnd : nat → Q) (st : server) (e : string)
    (u : user) (subs : list string) (tin tout : string) :
  e ≠ ""%string →
  findUser st e = Resolved (Some u) →
  subscriptions u = Some subs →
  tin ∈ SUPPORTED_STOCKS →
  tin ∈ subs →
  tout ∉ subs →
  dupFree st →
  subscribe st (Request (Some e) tin) = (st, Success subs)
  ∧ unsubscribe st (Request (Some e) tout) = (st, Success subs)
  ∧ NoDup subs
  ∧ (∀ req, dupFree (subscribe st req).1 ∧ dupFree (unsubscribe st req).1)
  ∧ (∀ evs st' out, run rnd st evs = Some (st', out) → dupFree st').
Proof.
  intros He Hf Hs Hsup Hin Hout Hd.
  assert (Hsess : ∀ t, sessionUser (Request (Some e) t) = Some e).
  { intros t. unfold sessionUser. simpl. by rewrite bool_decide_eq_false_2. }
  assert (Hinc1 : includes tin SUPPORTED_STOCKS = true)
    by by apply bool_decide_eq_true.
  assert (Hinc2 : includes tin subs = true) by by apply bool_decide_eq_true.
  unfold findUser in Hf.
  split; [|split; [|split; [|split]]].
  - unfold subscribe. rewrite Hsess. simpl. rewrite Hinc1. simpl.
    destruct (isMongoConnected st).
    + by rewrite Hf, Hs, Hinc2.
    + injection Hf as Hf. by rewrite Hf, Hs, Hinc2.
  - unfold unsubscribe. rewrite Hsess. simpl.
    destruct (isMongoConnected st).
    + rewrite Hf, Hs, (filter_absent _ _ Hout), (with_subscriptions_id _ _ Hs).
      rewrite insert_id by by apply findOne_Some.
      by rewrite with_docs_id.
    + injection Hf as Hf.
      rewrite Hf, Hs, (filter_absent _ _ Hout), (with_subscriptions_id _ _ Hs).
      rewrite insert_id by done. by rewrite with_inMemoryUsers_id.
  - unfold findOne in Hf. destruct (isMongoConnected st).
    + destruct (reachable (db st)); [|done]. injection Hf as Hf.
      eapply Hd; [by left|done].
    + injection Hf as Hf. eapply Hd; [by right|done].
  - intros req. split; [by apply subscribe_dupFree|by apply unsubscribe_dupFree].
  - intros evs st' out Hrun. by eapply run_dupFree.
Qed.

Lemma subscribe_idempotent_witness :
  let rnd : nat → Q := λ _, 0%Q in
  let a := "a@b.co"%string in
  let st := stateAfter rnd (initial rnd (Mongo false ∅))
              [PostLogin a; PostSubscribe (Request (Some a) "GOOG")] in
  let subs := ["GOOG"%string] in
  subscribe st (Request (Some a) "GOOG") = (st, Success subs)
  ∧ unsubscribe st (Request (Some a) "TSLA") = (st, Success subs)
  ∧ NoDup subs
  ∧ (∀ req, dupFree (subscribe st req).1 ∧ dupFree (unsubscribe st req).1)
  ∧ (∀ evs st' out, run rnd st evs = Some (st', out) → dupFree st').
Proof.
  intros rnd a st subs.
  apply (subscribe_idempotent rnd st a
           {| email := a; subscriptions := Some subs;
              alerts := Some {| thresholds := Some [] |} |} subs "GOOG" "TSLA").
  - discriminate.
  - vm_compute. reflexivity.
  - reflexivity.
  - left.
  - left.
  - intros Hin. apply list_elem_of_singleton in Hin. discriminate.
  - apply stateAfter_dupFree, initial_dupFree.
Defined.

(** * Further properties of the code *)

(** ** Rounding to two decimals *)

(** Goals of linear shape over rationals with explicit denominators. *)
Ltac q_arith :=
  unfold parseFloat, Qle, Qlt, Qplus, Qminus, Qmult, Qopp in *;
  simpl in *; rewrite ?Pos2Z.inj_mul in *; nia.

Lemma draw_ranges (r : Q) :
  (0 <= r)%Q → (r < 1)%Q →
  (parseFloat 10000%Z <= r * 1000 + 100)%Q
  ∧ (r * 1000 + 100 <= parseFloat 110000%Z)%Q
  ∧ (parseFloat (-1000)%Z <= r * 20 - 10)%Q ∧ (r * 20 - 10 <= parseFloat 1000%Z)%Q
  ∧ (parseFloat (-200)%Z <= r * 4 - 2)%Q ∧ (r * 4 - 2 <= parseFloat 200%Z)%Q
  ∧ (parseFloat (-500)%Z <= r * 10 - 5)%Q ∧ (r * 10 - 5 <= parseFloat 500%Z)%Q.
Proof. intros H0 H1. destruct r as [n d]. repeat split; q_arith. Qed.

Lemma percent_range (delta : Q) (c : fixed2) :
  (parseFloat (-500)%Z <= delta)%Q → (delta <= parseFloat 500%Z)%Q → 10000 ≤ c →
  (parseFloat (-500)%Z <= delta / parseFloat c * 100)%Q
  ∧ (delta / parseFloat c * 100 <= parseFloat 500%Z)%Q.
Proof.
  intros H1 H2 Hc. destruct c as [|p|p]; try lia.
  destruct delta as [n d]. unfold Qdiv, Qinv, parseFloat. simpl.
  split; q_arith.
Qed.


(** ** The simulator: ranges and frame *)



(** X2.  With [Math.random()] in [0, 1), a tick sends no sudden-change
    alert, to anyone, about a ticker whose price before the tick was 100.00
    or more: the move is at most 5 percent of it. *)
Theorem no_sudden_change_from_100 (rnd : nat → Q) (st st' : server)
    (out : list emit) (t : string) (prev : priceInfo) :
  unitRange rnd →
  tick rnd st = Some (st', out) →
  t ∈ SUPPORTED_STOCKS →
  stockPrices st !! t = Some prev →
  10000 ≤ price prev →
  fires out t sudden_change = false.
Proof.
  intros Hr Htick Ht Hprev Hbig.
  destruct (tick_priced rnd st (tick_defined rnd _ _ _ Htick))
    as (st1 & Ht1 & _ & _ & _ & _ & _ & Hnext).
  rewrite Htick in Ht1. injection Ht1 as <- ->.
  apply list_elem_of_lookup_1 in Ht as [i Hi].
  destruct (Hnext i t Hi) as (prev' & Hprev' & Hnew).
  rewrite Hprev in Hprev'. injection Hprev' as <-.
  apply not_true_is_false. intros Hf.
  apply fires_broadcast in Hf as (s & u & info & Hinfo & Hf).
  rewrite Hnew in Hinfo. injection Hinfo as <-.
  rewrite fires_sudden_change in Hf.
  apply gt_abs_5, abs_parseFloat_gt_5 in Hf.
  set (r := rnd (randomCalls st + i)%nat) in *.
  destruct (Hr (randomCalls st + i)%nat) as [Hr0 Hr1]. fold r in Hr0, Hr1.
  destruct (draw_ranges r Hr0 Hr1) as (_ & _ & _ & _ & _ & _ & Hlo & Hhi).
  destruct (percent_range _ _ Hlo Hhi Hbig) as [Hp1 Hp2].
  pose proof (toFixed2_between _ _ _ Hp1 Hp2) as Hb.
  cbn [nextInfo changePercent] in Hf. lia.
Qed.

Lemma no_sudden_change_from_100_witness :
  let rnd : nat → Q := λ _, 0%Q in
  let st := stateAfter rnd (initial rnd (Mongo false ∅))
              [PostLogin "a@b.co"; PostSubscribe (Request (Some "a@b.co") "GOOG");
               SocketRegister "s1" "a@b.co"] in
  fires (sentBy rnd st [Tick]) "GOOG" sudden_change = false.
Proof.
  intros rnd st.
  apply (no_sudden_change_from_100 rnd st (stateAfter rnd st [Tick])
           (sentBy rnd st [Tick]) "GOOG"
           {| price := 10000; change := -1000; changePercent := -200 |}).
  - intros i. split; [discriminate|reflexivity].
  - vm_compute. reflexivity.
  - left.
  - vm_compute. reflexivity.
  - reflexivity.
Defined.

(** X3.  With [Math.random()] in [0, 1), the process starts with every
    supported ticker priced between 100.00 and 1100.00, with a change
    between -10.00 and 10.00 and a percent change between -2.00 and 2.00. *)
Theorem initial_prices_in_range (rnd : nat → Q) (d : mongo) (t : string) :
  unitRange rnd →
  t ∈ SUPPORTED_STOCKS →
  ∃ info, stockPrices (initial rnd d) !! t = Some info
    ∧ 10000 ≤ price info ≤ 110000
    ∧ -1000 ≤ change info ≤ 1000
    ∧ -200 ≤ changePercent info ≤ 200.
Proof.
  intros Hr Ht. apply list_elem_of_lookup_1 in Ht as [i Hi].
  exists (initInfo rnd (0 + 3 * i)). split.
  { apply (initPrices_fold rnd _ _ _ SUPPORTED_STOCKS_NoDup i t Hi). }
  unfold initInfo. cbn [price change changePercent].
  destruct (Hr (0 + 3 * i)%nat) as [Ha0 Ha1].
  destruct (Hr (S (0 + 3 * i))) as [Hb0 Hb1].
  destruct (Hr (S (S (0 + 3 * i)))) as [Hc0 Hc1].
  destruct (draw_ranges _ Ha0 Ha1) as (H1 & H2 & _).
  destruct (draw_ranges _ Hb0 Hb1) as (_ & _ & H3 & H4 & _).
  destruct (draw_ranges _ Hc0 Hc1) as (_ & _ & _ & _ & H5 & H6 & _).
  split; [by apply toFixed2_between|].
  split; by apply toFixed2_between.
Qed.

Lemma initial_prices_in_range_witness :
  ∃ info, stockPrices (initial (λ _, 1 # 3)%Q (Mongo false ∅)) !! "NVDA"%string
          = Some info
    ∧ 10000 ≤ price info ≤ 110000
    ∧ -1000 ≤ change info ≤ 1000
    ∧ -200 ≤ changePercent info ≤ 200.
Proof.
  apply (initial_prices_in_range (λ _, 1 # 3)%Q (Mongo false ∅) "NVDA").
  - intros i. split; [discriminate|reflexivity].
  - do 4 right. left.
Defined.

(** X4.  A completed tick draws exactly five random values and changes
    nothing but the prices of the supported tickers: the registry, both
    user stores, the set of priced tickers and every other entry of the
    price table stay as they were. *)
Theorem tick_changes_prices_only (rnd : nat → Q) (st st' : server)
    (out : list emit) :
  tick rnd st = Some (st', out) →
  userSockets st' = userSockets st
  ∧ isMongoConnected st' = isMongoConnected st
  ∧ db st' = db st
  ∧ inMemoryUsers st' = inMemoryUsers st
  ∧ randomCalls st' = (randomCalls st + 5)%nat
  ∧ dom (stockPrices st') = dom (stockPrices st)
  ∧ (∀ t, t ∉ SUPPORTED_STOCKS → stockPrices st' !! t = stockPrices st !! t).
Proof.
  intros Htick.
  destruct (updatePrices_fold rnd SUPPORTED_STOCKS (stockPrices st) (randomCalls st)
              SUPPORTED_STOCKS_NoDup (tick_defined rnd _ _ _ Htick))
    as (p' & Hfold & Hout & Hin).
  unfold tick, updatePrices in Htick. rewrite Hfold in Htick.
  injection Htick as <- _. cbn.
  do 5 (split; [done|]). split; [|done].
  apply set_eq. intros t. rewrite !elem_of_dom.
  destruct (decide (t ∈ SUPPORTED_STOCKS)) as [Ht|Ht].
  - apply list_elem_of_lookup_1 in Ht as [i Hi].
    destruct (Hin i t Hi) as (info & -> & ->). split; eauto.
  - by rewrite Hout.
Qed.

Lemma tick_changes_prices_only_witness :
  let rnd : nat → Q := λ _, (1 # 2)%Q in
  let st := stateAfter rnd (initial rnd (Mongo false ∅))
              [PostLogin "a@b.co"; SocketRegister "s1" "a@b.co"] in
  let st' := stateAfter rnd st [Tick] in
  userSockets st' = userSockets st
  ∧ isMongoConnected st' = isMongoConnected st
  ∧ db st' = db st
  ∧ inMemoryUsers st' = inMemoryUsers st
  ∧ randomCalls st' = (randomCalls st + 5)%nat
  ∧ dom (stockPrices st') = dom (stockPrices st)
  ∧ (∀ t, t ∉ SUPPORTED_STOCKS → stockPrices st' !! t = stockPrices st !! t).
Proof.
  intros rnd st st'.
  apply (tick_changes_prices_only rnd st st' (sentBy rnd st [Tick])).
  vm_compute. reflexivity.
Defined.

(** ** The fan-out: recipients, volume, keys *)

(** X7.  A tick never writes to a socket outside the registry: every
    message it sends goes to the socket of a registered identity whose user
    was found with at least one subscription.  With an empty registry it
    sends nothing. *)
Theorem tick_recipients (rnd : nat → Q) (st st' : server) (out : list emit) :
  tick rnd st = Some (st', out) →
  (∀ m, m ∈ out →
     ∃ e u subs, (e, to m) ∈ userSockets st
       ∧ findUser st e = Resolved (Some u)
       ∧ subscriptions u = Some subs ∧ subs ≠ [])
  ∧ (userSockets st = [] → out = []).
Proof.
  intros Htick.
  destruct (tick_out _ _ _ _ Htick) as (-> & Hsock & Hfind). split.
  - intros m Hm. destruct (broadcast_to _ _ Hm) as (e & He & Hblock).
    rewrite Hsock in He. unfold fanoutIdentity in Hblock.
    rewrite Hfind in Hblock.
    destruct (findUser st e) as [|[u|]] eqn:Hf;
      try by apply elem_of_nil in Hblock.
    unfold guardedSubscriptions in Hblock.
    destruct (subscriptions u) as [[|t subs]|] eqn:Hs;
      try by apply elem_of_nil in Hblock.
    by exists e, u, (t :: subs).
  - intros Hempty. unfold broadcast. by rewrite Hsock, Hempty.
Qed.

Lemma tick_recipients_witness :
  let rnd : nat → Q := λ _, 0%Q in
  let st := stateAfter rnd (initial rnd (Mongo false ∅))
              [PostLogin "a@b.co"; PostSubscribe (Request (Some "a@b.co") "META");
               SocketRegister "s1" "a@b.co"] in
  let out := sentBy rnd st [Tick] in
  (∀ m, m ∈ out →
     ∃ e u subs, (e, to m) ∈ userSockets st
       ∧ findUser st e = Resolved (Some u)
       ∧ subscriptions u = Some subs ∧ subs ≠ [])
  ∧ (userSockets st = [] → out = []).
Proof.
  intros rnd st out.
  apply (tick_recipients rnd st (stateAfter rnd st [Tick]) out).
  vm_compute. reflexivity.
Defined.

Lemma tickerAlerts_length (s : string) (u : user) (t : string) (i : priceInfo) :
  (length (tickerAlerts s u t i) ≤ 3)%nat.
Proof.
  unfold tickerAlerts, suddenChangeAlert, thresholdAlerts.
  repeat case_match; simpl; lia.
Qed.

Lemma alertsOf_length (s : string) (u : user) (p : gmap string priceInfo)
    (subs : list string) :
  (length (alertsOf s u p subs) ≤ 3 * length subs)%nat.
Proof.
  induction subs as [|t subs IH]; [done|].
  change (alertsOf s u p (t :: subs))
    with (match p !! t with
          | Some info => tickerAlerts s u t info
          | None => []
          end ++ alertsOf s u p subs).
  rewrite length_app. cbn [length].
  destruct (p !! t) as [info|].
  - pose proof (tickerAlerts_length s u t info). lia.
  - simpl. lia.
Qed.

(** X6.  In one tick an identity is sent at most three alerts per
    subscription, plus its one [stockUpdate]. *)
Theorem alerts_per_tick_bounded (rnd : nat → Q) (st0 st : server)
    (out : list emit) (e s : string) (u : user) (subs : list string) :
  tick rnd st0 = Some (st, out) →
  findUser st0 e = Resolved (Some u) →
  subscriptions u = Some subs →
  (length (fanoutIdentity st (e, s)) ≤ 3 * length subs + 1)%nat.
Proof.
  intros Htick Hf Hs.
  destruct (tick_out _ _ _ _ Htick) as (_ & _ & Hfind).
  unfold fanoutIdentity, guardedSubscriptions. rewrite Hfind, Hf, Hs.
  destruct subs as [|t subs]; [simpl; lia|].
  rewrite fanoutUser_eq, length_app.
  pose proof (alertsOf_length s u (stockPrices st) (t :: subs)).
  simpl in *. lia.
Qed.

Lemma alerts_per_tick_bounded_witness :
  let rnd : nat → Q := λ _, 0%Q in
  let a := "a@b.co"%string in
  let cfg := {| t_ticker := "GOOG"; above := Some 95%Q; below := Some 95%Q |} in
  let u := {| email := a; subscriptions := Some ["GOOG"%string];
              alerts := Some {| thresholds := Some [cfg] |} |} in
  let st0 := with_inMemoryUsers
               (with_sockets (initial rnd (Mongo false ∅)) [(a, "s1"%string)])
               {[ a := u ]} in
  (length (fanoutIdentity (stateAfter rnd st0 [Tick]) (a, "s1"%string))
   ≤ 3 * length ["GOOG"%string] + 1)%nat.
Proof.
  intros rnd a cfg u st0.
  apply (alerts_per_tick_bounded rnd st0 (stateAfter rnd st0 [Tick])
           (sentBy rnd st0 [Tick]) a "s1" u ["GOOG"%string]).
  - vm_compute. reflexivity.
  - reflexivity.
  - reflexivity.
Defined.

Lemma findUser_store (st : server) (e : string) (u : user) :
  findUser st e = Resolved (Some u) →
  docs (db st) !! e = Some u ∨ inMemoryUsers st !! e = Some u.
Proof.
  unfold findUser. destruct (isMongoConnected st).
  - intros H%findOne_Some. by left.
  - intros [= H]. by right.
Qed.

Lemma supportedOnly_insert_docs (st : server) (e : string) (u' : user) :
  supportedOnly st →
  (∀ subs, subscriptions u' = Some subs → ∀ t, t ∈ subs → t ∈ SUPPORTED_STOCKS) →
  supportedOnly (with_docs st (<[e := u']> (docs (db st)))).
Proof.
  intros Hd Hu' e0 u0 subs0 [H|H] Hs; simpl in H.
  - destruct (decide (e = e0)) as [->|Hne].
    + rewrite lookup_insert_eq in H. injection H as <-. by apply Hu'.
    + rewrite lookup_insert_ne in H by done. eapply Hd; [by left|done].
  - eapply Hd; [by right|done].
Qed.

Lemma supportedOnly_insert_inMemoryUsers (st : server) (e : string) (u' : user) :
  supportedOnly st →
  (∀ subs, subscriptions u' = Some subs → ∀ t, t ∈ subs → t ∈ SUPPORTED_STOCKS) →
  supportedOnly (with_inMemoryUsers st (<[e := u']> (inMemoryUsers st))).
Proof.
  intros Hd Hu' e0 u0 subs0 [H|H] Hs; simpl in H.
  - eapply Hd; [by left|done].
  - destruct (decide (e = e0)) as [->|Hne].
    + rewrite lookup_insert_eq in H. injection H as <-. by apply Hu'.
    + rewrite lookup_insert_ne in H by done. eapply Hd; [by right|done].
Qed.

Lemma push_supported (t : string) (subs : list string) :
  (∀ x, x ∈ subs → x ∈ SUPPORTED_STOCKS) →
  negb (includes t SUPPORTED_STOCKS) = false →
  ∀ x, x ∈ subs ++ [t] → x ∈ SUPPORTED_STOCKS.
Proof.
  intros Hs Ht x [Hx|Hx%list_elem_of_singleton]%elem_of_app; [by apply Hs|].
  subst x. apply negb_false_iff in Ht. by apply bool_decide_eq_true in Ht.
Qed.

Lemma subscribe_supportedOnly (st : server) (req : request) :
  supportedOnly st → supportedOnly (subscribe st req).1.
Proof.
  intros Hd. unfold subscribe.
  destruct (sessionUser req) as [e|]; [|done].
  destruct (negb (includes _ SUPPORTED_STOCKS)) eqn:Hsup; [done|].
  destruct (isMongoConnected st).
  - unfold findOne. destruct (reachable (db st)); [|done].
    destruct (docs (db st) !! e) as [u|] eqn:Hu; [|done].
    destruct (subscriptions u) as [subs|] eqn:Hs; [|done].
    destruct (negb (includes (body_ticker req) subs)); [|done].
    apply supportedOnly_insert_docs; [done|]. intros subs' [= <-].
    apply push_supported; [|done]. eapply Hd; [by left|done].
  - destruct (inMemoryUsers st !! e) as [u|] eqn:Hu; [|done].
    destruct (subscriptions u) as [subs|] eqn:Hs; [|done].
    destruct (negb (includes (body_ticker req) subs)); [|done].
    apply supportedOnly_insert_inMemoryUsers; [done|]. intros subs' [= <-].
    apply push_supported; [|done]. eapply Hd; [by right|done].
Qed.

Lemma unsubscribe_supportedOnly (st : server) (req : request) :
  supportedOnly st → supportedOnly (unsubscribe st req).1.
Proof.
  intros Hd. unfold unsubscribe.
  destruct (sessionUser req) as [e|]; [|done].
  destruct (isMongoConnected st).
  - unfold findOne. destruct (reachable (db st)); [|done].
    destruct (docs (db st) !! e) as [u|] eqn:Hu; [|done].
    destruct (subscriptions u) as [subs|] eqn:Hs; [|done].
    apply supportedOnly_insert_docs; [done|]. intros subs' [= <-] t Ht.
    apply list_elem_of_filter in Ht as [_ Ht]. eapply Hd; [by left|done..].
  - destruct (inMemoryUsers st !! e) as [u|] eqn:Hu; [|done].
    destruct (subscriptions u) as [subs|] eqn:Hs; [|done].
    apply supportedOnly_insert_inMemoryUsers; [done|]. intros subs' [= <-] t Ht.
    apply list_elem_of_filter in Ht as [_ Ht]. eapply Hd; [by right|done..].
Qed.

Lemma login_supportedOnly (st : server) (e : string) :
  supportedOnly st → supportedOnly (login st e).
Proof.
  intros Hd. unfold login. destruct (isMongoConnected st).
  - destruct (findOne (db st) e) as [|[u|]]; [done..|].
    apply supportedOnly_insert_docs; [done|].
    intros subs [= <-] t Ht. by apply elem_of_nil in Ht.
  - destruct (inMemoryUsers st !! e); [done|].
    apply supportedOnly_insert_inMemoryUsers; [done|].
    intros subs [= <-] t Ht. by apply elem_of_nil in Ht.
Qed.

Lemma step_supportedOnly (rnd : nat → Q) (st st' : server) (ev : event)
    (out : list emit) :
  supportedOnly st → step rnd st ev = Some (st', out) → supportedOnly st'.
Proof.
  intros Hd Hstep. destruct ev; simpl in Hstep.
  - unfold tick in Hstep. destruct (updatePrices _ _ _) as [[p n]|]; [|done].
    by injection Hstep as <- _.
  - pose proof (onRegister_fst st socketId e) as Hfst.
    destruct (onRegister st socketId e) as [st1 o1]. simpl in Hfst.
    injection Hstep as <- _. by subst st1.
  - injection Hstep as <- _. unfold onDisconnect. by case_match.
  - injection Hstep as <- _. by apply login_supportedOnly.
  - injection Hstep as <- _. by apply subscribe_supportedOnly.
  - injection Hstep as <- _. by apply unsubscribe_supportedOnly.
  - by injection Hstep as <- _.
Qed.

Lemma run_supportedOnly (rnd : nat → Q) (evs : list event) :
  ∀ st st' out, supportedOnly st → run rnd st evs = Some (st', out) →
    supportedOnly st'.
Proof.
  induction evs as [|ev evs IH]; intros st st' out Hd Hrun; simpl in Hrun.
  - by injection Hrun as <- _.
  - destruct (step rnd st ev) as [[st1 out1]|] eqn:Hs; [|done].
    destruct (run rnd st1 evs) as [[st2 out2]|] eqn:Hr; [|done].
    injection Hrun as <- _.
    eapply IH; [|exact Hr]. by eapply step_supportedOnly.
Qed.

Lemma initial_supportedOnly (rnd : nat → Q) (b : bool) :
  supportedOnly (initial rnd (Mongo b ∅)).
Proof. intros e u subs [H|H]; simpl in H; by rewrite lookup_empty in H. Qed.

(** X5.  The subscribe endpoint only ever stores supported tickers, so in
    every state reached from stores that hold supported tickers only, the
    [stockUpdate] a tick sends to an identity has exactly the identity's
    subscriptions as its keys, whatever other tickers exist. *)
Theorem stockUpdate_keys_are_subscriptions (rnd : nat → Q)
    (st_init st0 st : server) (evs : list event) (out0 out : list emit)
    (e s : string) (u : user) (subs : list string) :
  supportedOnly st_init →
  run rnd st_init evs = Some (st0, out0) →
  tick rnd st0 = Some (st, out) →
  (e, s) ∈ userSockets st0 →
  findUser st0 e = Resolved (Some u) →
  subscriptions u = Some subs →
  subs ≠ [] →
  Emit s (stockUpdate (restricted (stockPrices st) subs)) ∈ out
  ∧ dom (restricted (stockPrices st) subs) = list_to_set subs
  ∧ (∀ t, t ∈ subs → t ∈ SUPPORTED_STOCKS).
Proof.
  intros Hinit Hrun Htick Hin Hf Hs Hne.
  assert (Hsup : ∀ t, t ∈ subs → t ∈ SUPPORTED_STOCKS).
  { eapply (run_supportedOnly _ _ _ _ _ Hinit Hrun); [|exact Hs].
    by apply findUser_store. }
  destruct (tick_priced rnd st0 (tick_defined rnd _ _ _ Htick))
    as (st1 & Ht1 & Hp & Hsock & _).
  rewrite Htick in Ht1. injection Ht1 as <- ->.
  destruct (tick_out _ _ _ _ Htick) as (_ & _ & Hfind).
  rewrite <- Hfind in Hf. rewrite <- Hsock in Hin.
  split; [|split; [|done]].
  - apply (broadcast_in st (e, s) _ Hin).
    rewrite (fanoutIdentity_subscribed _ _ _ _ _ Hf Hs Hne), fanoutUser_eq.
    apply elem_of_app. right. by left.
  - apply set_eq. intros t.
    rewrite elem_of_dom, elem_of_list_to_set, restricted_lookup.
    case_bool_decide as Ht.
    + split; [done|]. intros _. eapply priced_defined; [exact Hp|by apply Hsup].
    + split; [by intros [? ?]|done].
Qed.

Lemma stockUpdate_keys_are_subscriptions_witness :
  let rnd : nat → Q := λ _, 0%Q in
  let a := "a@b.co"%string in
  let evs := [PostLogin a; PostSubscribe (Request (Some a) "GOOG");
              PostSubscribe (Request (Some a) "NVDA"); SocketRegister "s1" a] in
  let st_init := initial rnd (Mongo false ∅) in
  let st0 := stateAfter rnd st_init evs in
  let st := stateAfter rnd st0 [Tick] in
  let subs := ["GOOG"; "NVDA"]%string in
  Emit "s1" (stockUpdate (restricted (stockPrices st) subs)) ∈ sentBy rnd st0 [Tick]
  ∧ dom (restricted (stockPrices st) subs) = list_to_set subs
  ∧ (∀ t, t ∈ subs → t ∈ SUPPORTED_STOCKS).
Proof.
  intros rnd a evs st_init st0 st subs.
  apply (stockUpdate_keys_are_subscriptions rnd st_init st0 st evs
           (sentBy rnd st_init evs) (sentBy rnd st0 [Tick]) a "s1"
           {| email := a; subscriptions := Some subs;
              alerts := Some {| thresholds := Some [] |} |} subs).
  - apply initial_supportedOnly.
  - vm_compute. reflexivity.
  - vm_compute. reflexivity.
  - vm_compute. left.
  - vm_compute. reflexivity.
  - reflexivity.
  - discriminate.
Defined.

(** ** The registry: upsert and round trip *)

Lemma get_set_ne (k k0 v : string) (m : JsMap.t) :
  k ≠ k0 → JsMap.get k0 (JsMap.set k v m) = JsMap.get k0 m.
Proof.
  intros Hne. induction m as [|[k' v'] m IH]; simpl.
  - by destruct (String.eqb_spec k k0).
  - destruct (String.eqb_spec k' k) as [->|Hne']; simpl.
    + by destruct (String.eqb_spec k k0).
    + by rewrite IH.
Qed.

Lemma set_known (k v : string) (m : JsMap.t) :
  k ∈ JsMap.keys m → JsMap.keys (JsMap.set k v m) = JsMap.keys m.
Proof.
  unfold JsMap.keys. induction m as [|[k' v'] m IH]; simpl.
  - by intros ?%elem_of_nil.
  - destruct (String.eqb_spec k' k) as [->|Hne]; [done|].
    intros [?|Hin]%elem_of_cons; [congruence|].
    simpl. f_equal. by apply IH.
Qed.

Lemma set_fresh (k v : string) (m : JsMap.t) :
  k ∉ JsMap.keys m → JsMap.set k v m = m ++ [(k, v)].
Proof.
  unfold JsMap.keys. induction m as [|[k' v'] m IH]; simpl; [done|].
  intros [Hne Hnotin]%not_elem_of_cons.
  destruct (String.eqb_spec k' k) as [->|_]; [done|].
  by rewrite IH.
Qed.

Lemma firstWithSocket_fresh (s e : string) (m : JsMap.t) :
  unregistered s m → firstWithSocket s (m ++ [(e, s)]) = Some e.
Proof.
  induction 1 as [|[k v] m Hv _ IH]; simpl.
  - by rewrite String.eqb_refl.
  - simpl in Hv. by destruct (String.eqb_spec v s).
Qed.

(** X8.  Registering is an upsert on the registry: afterwards the identity
    maps to the registering socket, every other identity maps to what it
    mapped to before, a known identity keeps its place in the iteration
    order and a new one is appended. *)
Theorem register_is_upsert (st : server) (s e : string) :
  let m := userSockets st in
  let m1 := userSockets (onRegister st s e).1 in
  JsMap.get e m1 = Some s
  ∧ (∀ e', e' ≠ e → JsMap.get e' m1 = JsMap.get e' m)
  ∧ (e ∈ JsMap.keys m → JsMap.keys m1 = JsMap.keys m)
  ∧ (e ∉ JsMap.keys m → m1 = m ++ [(e, s)]).
Proof.
  intros m m1. unfold m1. rewrite onRegister_sockets. fold m.
  split; [apply get_set_eq|].
  split; [intros e' Hne; by apply get_set_ne|].
  split; [apply set_known | apply set_fresh].
Qed.

(** X9.  A registration followed by the disconnect of that socket is a
    round trip on the registry, when the identity was not registered and the
    socket id was in no entry. *)
Theorem register_disconnect_round_trip (st : server) (s e : string) :
  e ∉ JsMap.keys (userSockets st) →
  unregistered s (userSockets st) →
  userSockets (onDisconnect (onRegister st s e).1 s) = userSockets st.
Proof.
  intros He Hs. rewrite onRegister_fst. unfold onDisconnect.
  cbn [userSockets with_sockets].
  rewrite (set_fresh _ _ _ He), (firstWithSocket_fresh _ _ _ Hs).
  cbn [userSockets with_sockets].
  rewrite (delete_split e s (userSockets st) [] He). by rewrite app_nil_r.
Qed.

Lemma register_disconnect_round_trip_witness :
  let rnd : nat → Q := λ _, 0%Q in
  let st := stateAfter rnd (initial rnd (Mongo false ∅))
              [SocketRegister "s1" "a@b.co"] in
  userSockets (onDisconnect (onRegister st "s2" "c@d.eu").1 "s2") = userSockets st.
Proof.
  intros rnd st.
  apply (register_disconnect_round_trip st "s2" "c@d.eu").
  - vm_compute. intros H. apply list_elem_of_singleton in H. discriminate.
  - vm_compute. repeat constructor. discriminate.
Defined.

(** ** The endpoints on a known user *)

Lemma sessionUser_Some (e t : string) :
  e ≠ ""%string → sessionUser (Request (Some e) t) = Some e.
Proof. intros He. unfold sessionUser. simpl. by rewrite bool_decide_eq_false_2. Qed.

Lemma findUser_saveUser_eq (st : server) (e : string) (ou : option user) (u' : user) :
  findUser st e = Resolved ou → findUser (saveUser st e u') e = Resolved (Some u').
Proof.
  unfold findUser, saveUser, findOne. destruct (isMongoConnected st) eqn:Hmc; simpl.
  - rewrite Hmc. destruct (reachable (db st)); [|done].
    intros _. by rewrite lookup_insert_eq.
  - rewrite Hmc. intros _. by rewrite lookup_insert_eq.
Qed.

Lemma findUser_saveUser_ne (st : server) (e e' : string) (u' : user) :
  e ≠ e' → findUser (saveUser st e u') e' = findUser st e'.
Proof.
  intros Hne. unfold findUser, saveUser, findOne.
  destruct (isMongoConnected st) eqn:Hmc; simpl; rewrite Hmc.
  - destruct (reachable (db st)); [|done]. by rewrite lookup_insert_ne.
  - by rewrite lookup_insert_ne.
Qed.

Lemma saveUser_same (st : server) (e : string) (u : user) :
  findUser st e = Resolved (Some u) → saveUser st e u = st.
Proof.
  unfold findUser, saveUser. destruct (isMongoConnected st).
  - intros H%findOne_Some. rewrite insert_id by done. apply with_docs_id.
  - intros [= H]. rewrite insert_id by done. apply with_inMemoryUsers_id.
Qed.

Lemma saveUser_saveUser (st : server) (e : string) (u1 u2 : user) :
  saveUser (saveUser st e u1) e u2 = saveUser st e u2.
Proof.
  unfold saveUser. destruct (isMongoConnected st) eqn:Hmc; simpl; rewrite Hmc.
  - unfold with_docs. simpl. by rewrite insert_insert_eq.
  - unfold with_inMemoryUsers. simpl. by rewrite insert_insert_eq.
Qed.

Lemma saveUser_frame (st : server) (e : string) (u : user) :
  userSockets (saveUser st e u) = userSockets st
  ∧ stockPrices (saveUser st e u) = stockPrices st
  ∧ randomCalls (saveUser st e u) = randomCalls st
  ∧ isMongoConnected (saveUser st e u) = isMongoConnected st.
Proof.
  unfold saveUser. destruct (isMongoConnected st) eqn:E; simpl;
    rewrite ?E; by repeat split.
Qed.

Lemma subscribe_found (st : server) (req : request) (e : string) (u : user)
    (subs : list string) :
  sessionUser req = Some e →
  body_ticker req ∈ SUPPORTED_STOCKS →
  findUser st e = Resolved (Some u) →
  subscriptions u = Some subs →
  body_ticker req ∉ subs →
  subscribe st req
  = (saveUser st e (with_subscriptions u (subs ++ [body_ticker req])),
     Success (subs ++ [body_ticker req])).
Proof.
  intros Hsess Hsup Hf Hs Hnew. unfold subscribe, saveUser. rewrite Hsess.
  unfold includes. rewrite (bool_decide_eq_true_2 _ Hsup). simpl.
  unfold findUser in Hf. destruct (isMongoConnected st).
  - by rewrite Hf, Hs, (bool_decide_eq_false_2 _ Hnew).
  - injection Hf as Hf. by rewrite Hf, Hs, (bool_decide_eq_false_2 _ Hnew).
Qed.

Lemma unsubscribe_found (st : server) (req : request) (e : string) (u : user)
    (subs : list string) :
  sessionUser req = Some e →
  findUser st e = Resolved (Some u) →
  subscriptions u = Some subs →
  unsubscribe st req
  = (saveUser st e (with_subscriptions u (filter (λ sub, sub ≠ body_ticker req) subs)),
     Success (filter (λ sub, sub ≠ body_ticker req) subs)).
Proof.
  intros Hsess Hf Hs. unfold unsubscribe, saveUser. rewrite Hsess.
  unfold findUser in Hf. destruct (isMongoConnected st).
  - by rewrite Hf, Hs.
  - injection Hf as Hf. by rewrite Hf, Hs.
Qed.

Lemma filter_pushed (t : string) (subs : list string) :
  t ∉ subs → filter (λ sub, sub ≠ t) (subs ++ [t]) = subs.
Proof.
  intros Ht. rewrite filter_app, (filter_absent _ _ Ht).
  rewrite filter_cons_False by (intros H; by apply H).
  by rewrite filter_nil, app_nil_r.
Qed.

(** X10.  Subscribing to a supported ticker the user does not have appends
    it to the list, and unsubscribing from it right after gives back the
    list and the whole server state as they were. *)
Theorem subscribe_unsubscribe_round_trip (st : server) (e : string) (u : user)
    (subs : list string) (t : string) :
  e ≠ ""%string →
  findUser st e = Resolved (Some u) →
  subscriptions u = Some subs →
  t ∈ SUPPORTED_STOCKS →
  t ∉ subs →
  let req := Request (Some e) t in
  ∃ st1, subscribe st req = (st1, Success (subs ++ [t]))
    ∧ findUser st1 e = Resolved (Some (with_subscriptions u (subs ++ [t])))
    ∧ unsubscribe st1 req = (st, Success subs).
Proof.
  intros He Hf Hs Hsup Hnew req.
  pose proof (sessionUser_Some e t He) as Hsess.
  exists (saveUser st e (with_subscriptions u (subs ++ [t]))).
  split; [by apply (subscribe_found st req e u subs)|].
  assert (Hf1 : findUser (saveUser st e (with_subscriptions u (subs ++ [t]))) e
                = Resolved (Some (with_subscriptions u (subs ++ [t]))))
    by by eapply findUser_saveUser_eq.
  split; [done|].
  rewrite (unsubscribe_found _ req e _ (subs ++ [t]) Hsess Hf1 eq_refl).
  cbn [body_ticker req]. rewrite (filter_pushed _ _ Hnew), saveUser_saveUser.
  assert (Hu : with_subscriptions (with_subscriptions u (subs ++ [t])) subs = u).
  { destruct u; simpl in *. by subst. }
  by rewrite Hu, (saveUser_same _ _ _ Hf).
Qed.

Lemma subscribe_unsubscribe_round_trip_witness :
  let rnd : nat → Q := λ _, 0%Q in
  let a := "a@b.co"%string in
  let st := stateAfter rnd (initial rnd (Mongo false ∅))
              [PostLogin a; PostSubscribe (Request (Some a) "GOOG")] in
  let u := {| email := a; subscriptions := Some ["GOOG"%string];
              alerts := Some {| thresholds := Some [] |} |} in
  let req := Request (Some a) "META" in
  ∃ st1, subscribe st req = (st1, Success (["GOOG"%string] ++ ["META"%string]))
    ∧ findUser st1 a
      = Resolved (Some (with_subscriptions u (["GOOG"%string] ++ ["META"%string])))
    ∧ unsubscribe st1 req = (st, Success ["GOOG"%string]).
Proof.
  intros rnd a st u req.
  apply (subscribe_unsubscribe_round_trip st a u ["GOOG"%string] "META").
  - discriminate.
  - vm_compute. reflexivity.
  - reflexivity.
  - do 3 right. left.
  - intros H. apply list_elem_of_singleton in H. discriminate.
Defined.

(** X11.  Unsubscribing checks nothing about the ticker: for a known user
    it answers success for any ticker, supported or not, and the list it
    stores and returns is the old one without any occurrence of the ticker,
    the other entries in their order. *)
Theorem unsubscribe_removes_every_occurrence (st : server) (e : string)
    (u : user) (subs : list string) (t : string) :
  e ≠ ""%string →
  findUser st e = Resolved (Some u) →
  subscriptions u = Some subs →
  ∃ st1 l, unsubscribe st (Request (Some e) t) = (st1, Success l)
    ∧ (t ∉ l)
    ∧ (∀ x, x ≠ t → (x ∈ l ↔ x ∈ subs))
    ∧ sublist l subs
    ∧ findUser st1 e = Resolved (Some (with_subscriptions u l)).
Proof.
  intros He Hf Hs.
  pose proof (sessionUser_Some e t He) as Hsess.
  eexists _, _. split; [by apply (unsubscribe_found st _ e u subs)|].
  cbn [body_ticker]. split; [|split; [|split]].
  - intros [H _]%list_elem_of_filter. by apply H.
  - intros x Hx. rewrite list_elem_of_filter. split; [by intros [_ ?]|done].
  - apply sublist_filter.
  - by eapply findUser_saveUser_eq.
Qed.

Lemma unsubscribe_removes_every_occurrence_witness :
  let rnd : nat → Q := λ _, 0%Q in
  let a := "a@b.co"%string in
  let st := stateAfter rnd (initial rnd (Mongo false ∅))
              [PostLogin a; PostSubscribe (Request (Some a) "GOOG")] in
  let u := {| email := a; subscriptions := Some ["GOOG"%string];
              alerts := Some {| thresholds := Some [] |} |} in
  ∃ st1 l, unsubscribe st (Request (Some a) "DOGE") = (st1, Success l)
    ∧ ("DOGE"%string ∉ l)
    ∧ (∀ x, x ≠ "DOGE"%string → (x ∈ l ↔ x ∈ ["GOOG"%string]))
    ∧ sublist l ["GOOG"%string]
    ∧ findUser st1 a = Resolved (Some (with_subscriptions u l)).
Proof.
  intros rnd a st u.
  apply (unsubscribe_removes_every_occurrence st a u ["GOOG"%string] "DOGE").
  - discriminate.
  - vm_compute. reflexivity.
  - reflexivity.
Defined.

(** ** The alert thresholds endpoint *)

Lemma find_ticker_filter_eq (t : string) (l : list thresholdCfg) :
  List.find (λ c, String.eqb (t_ticker c) t) (filter (λ c, t_ticker c ≠ t) l) = None.
Proof.
  induction l as [|c l IH]; [done|].
  destruct (decide (t_ticker c = t)) as [Heq|Hne].
  - by rewrite filter_cons_False by (intros H; by apply H).
  - rewrite filter_cons_True by done. simpl.
    by destruct (String.eqb_spec (t_ticker c) t).
Qed.

Lemma find_ticker_filter_ne (t t' : string) (l : list thresholdCfg) :
  t' ≠ t →
  List.find (λ c, String.eqb (t_ticker c) t') (filter (λ c, t_ticker c ≠ t) l)
  = List.find (λ c, String.eqb (t_ticker c) t') l.
Proof.
  intros Hne. induction l as [|c l IH]; [done|].
  destruct (decide (t_ticker c = t)) as [Heq|Hne'].
  - rewrite filter_cons_False by (intros H; by apply H). simpl.
    destruct (String.eqb_spec (t_ticker c) t'); [congruence|done].
  - rewrite filter_cons_True by done. simpl.
    by destruct (String.eqb_spec (t_ticker c) t').
Qed.

Lemma find_ticker_app (t : string) (l : list thresholdCfg) (c : thresholdCfg) :
  List.find (λ c, String.eqb (t_ticker c) t) (l ++ [c])
  = match List.find (λ c, String.eqb (t_ticker c) t) l with
    | Some x => Some x
    | None => if String.eqb (t_ticker c) t then Some c else None
    end.
Proof.
  induction l as [|x l IH]; simpl; [done|].
  by destruct (String.eqb (t_ticker x) t).
Qed.

Lemma newThresholds_find_eq (old : list thresholdCfg) (t : string)
    (a b : bodyNumber) :
  List.find (λ c, String.eqb (t_ticker c) t) (newThresholds old t a b)
  = if notNaN a || notNaN b
    then Some {| t_ticker := t; above := stored a; below := stored b |}
    else None.
Proof.
  unfold newThresholds. destruct (notNaN a || notNaN b).
  - rewrite find_ticker_app, find_ticker_filter_eq. simpl.
    by rewrite String.eqb_refl.
  - apply find_ticker_filter_eq.
Qed.

Lemma newThresholds_find_ne (old : list thresholdCfg) (t t' : string)
    (a b : bodyNumber) :
  t' ≠ t →
  List.find (λ c, String.eqb (t_ticker c) t') (newThresholds old t a b)
  = List.find (λ c, String.eqb (t_ticker c) t') old.
Proof.
  intros Hne. unfold newThresholds. destruct (notNaN a || notNaN b).
  - rewrite find_ticker_app, find_ticker_filter_ne by done.
    destruct (List.find _ old); [done|]. simpl.
    destruct (String.eqb_spec t t'); [congruence|done].
  - by apply find_ticker_filter_ne.
Qed.

Lemma newThresholds_one_entry (old : list thresholdCfg) (t : string)
    (a b : bodyNumber) :
  oneEntryPerTicker old → oneEntryPerTicker (newThresholds old t a b).
Proof.
  unfold oneEntryPerTicker, newThresholds. intros Hnd.
  assert (Hkept : NoDup (t_ticker <$> filter (λ c, t_ticker c ≠ t) old)).
  { eapply sublist_NoDup; [exact Hnd|apply fmap_sublist, sublist_filter]. }
  destruct (notNaN a || notNaN b); [|done].
  rewrite fmap_app. apply NoDup_app. split; [done|].
  split; [|apply NoDup_singleton].
  intros x (c & -> & [Hc _]%list_elem_of_filter)%list_elem_of_fmap
         Hx%list_elem_of_singleton.
  by apply Hc.
Qed.

Lemma setAlerts_found (st : server) (req : alertRequest) (e : string) (u : user) :
  sessionUser (Request (ar_session req) "") = Some e →
  ar_ticker req ∈ SUPPORTED_STOCKS →
  findUser st e = Resolved (Some u) →
  let l := newThresholds (thresholdsOf u) (ar_ticker req) (ar_above req) (ar_below req) in
  setAlerts st req = (saveUser st e (with_alerts u l), AlertsOk {| thresholds := Some l |}).
Proof.
  intros Hsess Hsup Hf l. unfold setAlerts, saveUser. rewrite Hsess.
  unfold includes. rewrite (bool_decide_eq_true_2 _ Hsup). simpl.
  unfold findUser in Hf. destruct (isMongoConnected st).
  - by rewrite Hf.
  - injection Hf as Hf. by rewrite Hf.
Qed.

(** X12.  Saving thresholds for a supported ticker replaces the user's
    entry for that ticker: afterwards the entry found for the ticker is the
    one just posted (none if both values were unparsable), the entries of
    every other ticker and the subscriptions are untouched, and the list
    still has at most one entry per ticker. *)
Theorem setAlerts_replaces_entry (st : server) (e : string) (u : user)
    (t : string) (a b : bodyNumber) :
  e ≠ ""%string →
  t ∈ SUPPORTED_STOCKS →
  findUser st e = Resolved (Some u) →
  oneEntryPerTicker (thresholdsOf u) →
  let l := newThresholds (thresholdsOf u) t a b in
  ∃ st1 u1,
    setAlerts st (AlertRequest (Some e) t a b) = (st1, AlertsOk {| thresholds := Some l |})
    ∧ findUser st1 e = Resolved (Some u1)
    ∧ thresholdsOf u1 = l
    ∧ subscriptions u1 = subscriptions u
    ∧ oneEntryPerTicker l
    ∧ List.find (λ c, String.eqb (t_ticker c) t) l
      = (if notNaN a || notNaN b
         then Some {| t_ticker := t; above := stored a; below := stored b |}
         else None)
    ∧ (∀ t', t' ≠ t →
         List.find (λ c, String.eqb (t_ticker c) t') l
         = List.find (λ c, String.eqb (t_ticker c) t') (thresholdsOf u)).
Proof.
  intros He Hsup Hf Hone l.
  exists (saveUser st e (with_alerts u l)), (with_alerts u l).
  split.
  { apply (setAlerts_found st (AlertRequest (Some e) t a b) e u); [|done..].
    by apply sessionUser_Some. }
  split; [by eapply findUser_saveUser_eq|].
  do 2 (split; [done|]).
  split; [by apply newThresholds_one_entry|].
  split; [apply newThresholds_find_eq|].
  intros t' Hne. by apply newThresholds_find_ne.
Qed.

Lemma setAlerts_replaces_entry_witness :
  let rnd : nat → Q := λ _, 0%Q in
  let a := "a@b.co"%string in
  let st := stateAfter rnd (initial rnd (Mongo false ∅)) [PostLogin a] in
  let l := newThresholds (thresholdsOf (newUser a)) "TSLA" (Parsed 500) Absent in
  ∃ st1 u1,
    setAlerts st (AlertRequest (Some a) "TSLA" (Parsed 500) Absent)
    = (st1, AlertsOk {| thresholds := Some l |})
    ∧ findUser st1 a = Resolved (Some u1)
    ∧ thresholdsOf u1 = l
    ∧ subscriptions u1 = subscriptions (newUser a)
    ∧ oneEntryPerTicker l
    ∧ List.find (λ c, String.eqb (t_ticker c) "TSLA") l
      = (if notNaN (Parsed 500) || notNaN Absent
         then Some {| t_ticker := "TSLA"; above := stored (Parsed 500);
                      below := stored Absent |}
         else None)
    ∧ (∀ t', t' ≠ "TSLA"%string →
         List.find (λ c, String.eqb (t_ticker c) t') l
         = List.find (λ c, String.eqb (t_ticker c) t') (thresholdsOf (newUser a))).
Proof.
  intros rnd a st l.
  apply (setAlerts_replaces_entry st a (newUser a) "TSLA" (Parsed 500) Absent).
  - discriminate.
  - right. left.
  - vm_compute. reflexivity.
  - constructor.
Defined.

Lemma tick_after_save (rnd : nat → Q) (st : server) (e : string) (u1 : user)
    (ou : option user) :
  priced (stockPrices st) →
  findUser st e = Resolved ou →
  ∃ st2, tick rnd (saveUser st e u1) = Some (st2, broadcast st2)
    ∧ priced (stockPrices st2)
    ∧ userSockets st2 = userSockets st
    ∧ findUser st2 e = Resolved (Some u1).
Proof.
  intros Hp Hf.
  destruct (saveUser_frame st e u1) as (Hsock & Hprices & _ & _).
  destruct (tick_priced rnd (saveUser st e u1))
    as (st2 & Ht & Hp2 & Hsock2 & Hmc & Hdb & Hmem & _).
  { intros t Ht. rewrite Hprices. by apply priced_defined. }
  exists st2. split; [done|]. split; [done|].
  split; [by rewrite Hsock2|].
  rewrite <- (findUser_saveUser_eq st e ou u1 Hf).
  unfold findUser. by rewrite Hmc, Hdb, Hmem.
Qed.

(** X13.  Thresholds saved through the endpoint are what the next tick
    uses: for a registered identity subscribed to the ticker, the tick after
    the save sends a threshold-above alert if and only if a number was
    posted as [above] and the new price is at least it, and a
    threshold-below alert if and only if a number was posted as [below] and
    the new price is at most it.  Posting no number for a side switches that
    side's alert off. *)
Theorem saved_thresholds_drive_next_tick (rnd : nat → Q) (st : server)
    (e s : string) (u : user) (subs : list string) (t : string)
    (a b : bodyNumber) :
  priced (stockPrices st) →
  e ≠ ""%string →
  t ∈ SUPPORTED_STOCKS →
  findUser st e = Resolved (Some u) →
  subscriptions u = Some subs →
  t ∈ subs →
  (e, s) ∈ userSockets st →
  let st1 := (setAlerts st (AlertRequest (Some e) t a b)).1 in
  ∃ st2 out info,
    tick rnd st1 = Some (st2, out)
    ∧ stockPrices st2 !! t = Some info
    ∧ (∃ pre post, out = pre ++ fanoutIdentity st2 (e, s) ++ post)
    ∧ (fires (fanoutIdentity st2 (e, s)) t threshold_above = true
       ↔ ∃ x, stored a = Some x ∧ (x <= parseFloat (price info))%Q)
    ∧ (fires (fanoutIdentity st2 (e, s)) t threshold_below = true
       ↔ ∃ y, stored b = Some y ∧ (parseFloat (price info) <= y)%Q).
Proof.
  intros Hp He Hsup Hf Hs Hsub Hin st1.
  set (l := newThresholds (thresholdsOf u) t a b).
  assert (Hst1 : st1 = saveUser st e (with_alerts u l)).
  { unfold st1.
    by rewrite (setAlerts_found st (AlertRequest (Some e) t a b) e u
                  (sessionUser_Some e "" He) Hsup Hf). }
  destruct (tick_after_save rnd st e (with_alerts u l) _ Hp Hf)
    as (st2 & Htick & Hp2 & Hsock & Hf2).
  destruct (Hp2 t Hsup) as (info & Hinfo & _).
  exists st2, (broadcast st2), info. rewrite Hst1.
  split; [done|]. split; [done|].
  split; [apply broadcast_split; by rewrite Hsock|].
  assert (Hne : subs ≠ []) by (intros ->; by apply elem_of_nil in Hsub).
  rewrite (fanoutIdentity_subscribed st2 e s (with_alerts u l) subs Hf2 Hs Hne).
  rewrite !fires_fanoutUser, !fires_alertsOf, Hinfo,
    fires_threshold_above, fires_threshold_below,
    (bool_decide_eq_true_2 _ Hsub).
  cbn [andb]. change (thresholdsOf (with_alerts u l)) with l.
  unfold l. rewrite newThresholds_find_eq.
  destruct (notNaN a || notNaN b) eqn:Hnan.
  - cbn [above below]. split.
    + destruct (stored a) as [x|].
      * unfold ge. rewrite Qle_bool_iff. split; [eauto|].
        by intros (? & [= <-] & ?).
      * split; [done|]. by intros (? & ? & _).
    + destruct (stored b) as [y|].
      * unfold le. rewrite Qle_bool_iff. split; [eauto|].
        by intros (? & [= <-] & ?).
      * split; [done|]. by intros (? & ? & _).
  - destruct a, b; try done.
    split; (split; [done|]; by intros (? & ? & _)).
Qed.

Lemma saved_thresholds_drive_next_tick_witness :
  let rnd : nat → Q := λ _, 0%Q in
  let a := "a@b.co"%string in
  let st := stateAfter rnd (initial rnd (Mongo false ∅))
              [PostLogin a; PostSubscribe (Request (Some a) "GOOG");
               SocketRegister "s1" a] in
  let st1 := (setAlerts st (AlertRequest (Some a) "GOOG" (Parsed 90) Absent)).1 in
  ∃ st2 out info,
    tick rnd st1 = Some (st2, out)
    ∧ stockPrices st2 !! "GOOG"%string = Some info
    ∧ (∃ pre post, out = pre ++ fanoutIdentity st2 (a, "s1"%string) ++ post)
    ∧ (fires (fanoutIdentity st2 (a, "s1"%string)) "GOOG" threshold_above = true
       ↔ ∃ x, stored (Parsed 90) = Some x ∧ (x <= parseFloat (price info))%Q)
    ∧ (fires (fanoutIdentity st2 (a, "s1"%string)) "GOOG" threshold_below = true
       ↔ ∃ y, stored Absent = Some y ∧ (parseFloat (price info) <= y)%Q).
Proof.
  intros rnd a st st1.
  apply (saved_thresholds_drive_next_tick rnd st a "s1"
           {| email := a; subscriptions := Some ["GOOG"%string];
              alerts := Some {| thresholds := Some [] |} |}
           ["GOOG"%string] "GOOG" (Parsed 90) Absent).
  - change (priced (initPrices rnd).1). apply initPrices_priced.
    intros i. discriminate.
  - discriminate.
  - left.
  - vm_compute. reflexivity.
  - reflexivity.
  - left.
  - vm_compute. left.
Defined.

Example saved_threshold_fires :
  let rnd : nat → Q := λ _, 0%Q in
  let a := "a@b.co"%string in
  let st := stateAfter rnd (initial rnd (Mongo false ∅))
              [PostLogin a; PostSubscribe (Request (Some a) "GOOG");
               SocketRegister "s1" a] in
  let st1 := (setAlerts st (AlertRequest (Some a) "GOOG" (Parsed 90) Absent)).1 in
  sentBy rnd st1 [Tick]
  = [Emit "s1" (priceAlertMsg
       {| a_ticker := "GOOG"; a_type := threshold_above; a_changePercent := None;
          a_threshold := Some 90%Q; a_price := (9500 # 100)%Q |});
     Emit "s1" (stockUpdate
       {[ "GOOG"%string := {| price := 9500; change := -500; changePercent := -500 |} ]})].
Proof. vm_compute. reflexivity. Qed.

(** ** Failed requests, other users, logging in *)

(** X14.  A subscribe, unsubscribe or thresholds request that is answered
    with an error leaves the server state exactly as it was; without a
    session the answer is 401, and subscribing to an unsupported ticker is
    answered 400 before any user is looked up. *)
Theorem failed_requests_change_nothing (st : server) (req : request)
    (areq : alertRequest) :
  (∀ c, (subscribe st req).2 = Failure c → (subscribe st req).1 = st)
  ∧ (∀ c, (unsubscribe st req).2 = Failure c → (unsubscribe st req).1 = st)
  ∧ (∀ c, (setAlerts st areq).2 = AlertsFailure c → (setAlerts st areq).1 = st)
  ∧ (sessionUser req = None →
       subscribe st req = (st, Failure 401) ∧ unsubscribe st req = (st, Failure 401))
  ∧ (sessionUser (Request (ar_session areq) "") = None →
       setAlerts st areq = (st, AlertsFailure 401))
  ∧ (sessionUser req ≠ None → body_ticker req ∉ SUPPORTED_STOCKS →
       subscribe st req = (st, Failure 400))
  ∧ (sessionUser (Request (ar_session areq) "") ≠ None →
       ar_ticker areq ∉ SUPPORTED_STOCKS →
       setAlerts st areq = (st, AlertsFailure 400)).
Proof.
  split; [|split; [|split; [|split; [|split; [|split]]]]].
  - intros c. unfold subscribe, findOne. by repeat case_match.
  - intros c. unfold unsubscribe, findOne. by repeat case_match.
  - intros c. unfold setAlerts, findOne. by repeat case_match.
  - intros Hs. unfold subscribe, unsubscribe. by rewrite Hs.
  - intros Hs. unfold setAlerts. by rewrite Hs.
  - intros Hs Ht. unfold subscribe.
    destruct (sessionUser req); [|done].
    unfold includes. by rewrite (bool_decide_eq_false_2 _ Ht).
  - intros Hs Ht. unfold setAlerts.
    destruct (sessionUser _); [|done].
    unfold includes. by rewrite (bool_decide_eq_false_2 _ Ht).
Qed.

Lemma subscribe_shape (st : server) (req : request) :
  (subscribe st req).1 = st
  ∨ ∃ e u', sessionUser req = Some e ∧ (subscribe st req).1 = saveUser st e u'.
Proof.
  unfold subscribe, saveUser, findOne.
  destruct (sessionUser req) as [e|]; [|by left].
  destruct (isMongoConnected st); repeat case_match; simpl; eauto.
Qed.

Lemma unsubscribe_shape (st : server) (req : request) :
  (unsubscribe st req).1 = st
  ∨ ∃ e u', sessionUser req = Some e ∧ (unsubscribe st req).1 = saveUser st e u'.
Proof.
  unfold unsubscribe, saveUser, findOne.
  destruct (sessionUser req) as [e|]; [|by left].
  destruct (isMongoConnected st); repeat case_match; simpl; eauto.
Qed.

Lemma setAlerts_shape (st : server) (req : alertRequest) :
  (setAlerts st req).1 = st
  ∨ ∃ e u', sessionUser (Request (ar_session req) "") = Some e
            ∧ (setAlerts st req).1 = saveUser st e u'.
Proof.
  unfold setAlerts, saveUser, findOne.
  destruct (sessionUser _) as [e|]; [|by left].
  destruct (isMongoConnected st); repeat case_match; simpl; eauto.
Qed.

Lemma login_cases (st : server) (e : string) :
  (findUser st e = Resolved None ∧ login st e = saveUser st e (newUser e))
  ∨ (findUser st e ≠ Resolved None ∧ login st e = st).
Proof.
  unfold login, findUser, saveUser. destruct (isMongoConnected st).
  - destruct (findOne (db st) e) as [|[u|]]; [by right..|by left].
  - destruct (inMemoryUsers st !! e); [by right|by left].
Qed.

(** X15.  A request made in one user's session never changes what the
    server knows of another user: subscribing, unsubscribing, saving
    thresholds and logging in leave every other user's record as it was. *)
Theorem requests_touch_one_user (st : server) (e e' t : string)
    (a b : bodyNumber) :
  e ≠ e' →
  findUser (subscribe st (Request (Some e) t)).1 e' = findUser st e'
  ∧ findUser (unsubscribe st (Request (Some e) t)).1 e' = findUser st e'
  ∧ findUser (setAlerts st (AlertRequest (Some e) t a b)).1 e' = findUser st e'
  ∧ findUser (login st e) e' = findUser st e'.
Proof.
  intros Hne.
  assert (Hsess : ∀ x e0, sessionUser (Request (Some e) x) = Some e0 → e0 = e).
  { intros x e0. unfold sessionUser. simpl. case_bool_decide; congruence. }
  split; [|split; [|split]].
  - destruct (subscribe_shape st (Request (Some e) t)) as [->|(e0 & u' & Hs & ->)];
      [done|].
    apply Hsess in Hs as ->. by apply findUser_saveUser_ne.
  - destruct (unsubscribe_shape st (Request (Some e) t)) as [->|(e0 & u' & Hs & ->)];
      [done|].
    apply Hsess in Hs as ->. by apply findUser_saveUser_ne.
  - destruct (setAlerts_shape st (AlertRequest (Some e) t a b))
      as [->|(e0 & u' & Hs & ->)]; [done|].
    apply Hsess in Hs as ->. by apply findUser_saveUser_ne.
  - destruct (login_cases st e) as [[_ ->]|[_ ->]]; [|done].
    by apply findUser_saveUser_ne.
Qed.

Lemma requests_touch_one_user_witness :
  let rnd : nat → Q := λ _, 0%Q in
  let st := stateAfter rnd (initial rnd (Mongo false ∅))
              [PostLogin "a@b.co"; PostLogin "c@d.eu";
               PostSubscribe (Request (Some "c@d.eu") "AMZN")] in
  let e := "a@b.co"%string in
  let e' := "c@d.eu"%string in
  findUser (subscribe st (Request (Some e) "AMZN")).1 e' = findUser st e'
  ∧ findUser (unsubscribe st (Request (Some e) "AMZN")).1 e' = findUser st e'
  ∧ findUser (setAlerts st (AlertRequest (Some e) "AMZN" (Parsed 1) Absent)).1 e'
    = findUser st e'
  ∧ findUser (login st e) e' = findUser st e'.
Proof.
  intros rnd st e e'.
  apply (requests_touch_one_user st e e' "AMZN" (Parsed 1) Absent).
  discriminate.
Defined.

(** X16.  Logging in creates a user only when the store does not know the
    email: the new user has no subscriptions and no thresholds, a user the
    store already knows (this one or any other) is left as it is, and a
    second login changes nothing. *)
Theorem login_creates_once (st : server) (e : string) :
  login (login st e) e = login st e
  ∧ (∀ e' u, findUser st e' = Resolved (Some u) →
       findUser (login st e) e' = Resolved (Some u))
  ∧ (findUser st e = Resolved None →
       findUser (login st e) e = Resolved (Some (newUser e))
       ∧ subscriptions (newUser e) = Some []
       ∧ thresholdsOf (newUser e) = [])
  ∧ (findUser st e = Rejected → login st e = st).
Proof.
  destruct (login_cases st e) as [[Hnone Hl]|[Hsome Hl]]; rewrite Hl.
  - assert (Hf1 : findUser (saveUser st e (newUser e)) e
                  = Resolved (Some (newUser e)))
      by by eapply findUser_saveUser_eq.
    split; [|split; [|split]].
    + destruct (login_cases (saveUser st e (newUser e)) e) as [[H _]|[_ ->]];
        [congruence|done].
    + intros e' u Hf. destruct (decide (e = e')) as [->|Hne]; [congruence|].
      by rewrite findUser_saveUser_ne.
    + done.
    + congruence.
  - split; [by rewrite Hl|]. split; [done|]. split; [done|done].
Qed.

Lemma subscribe_known (st : server) (req : request) (e : string) (u : user)
    (subs : list string) :
  sessionUser req = Some e →
  body_ticker req ∈ SUPPORTED_STOCKS →
  findUser st e = Resolved (Some u) →
  subscriptions u = Some subs →
  body_ticker req ∈ subs →
  subscribe st req = (st, Success subs).
Proof.
  intros Hsess Hsup Hf Hs Hin. unfold subscribe. rewrite Hsess.
  unfold includes. rewrite (bool_decide_eq_true_2 _ Hsup). simpl.
  unfold findUser in Hf. destruct (isMongoConnected st).
  - by rewrite Hf, Hs, (bool_decide_eq_true_2 _ Hin).
  - injection Hf as Hf. by rewrite Hf, Hs, (bool_decide_eq_true_2 _ Hin).
Qed.

(** X17.  A subscription is served from the next tick on: after a
    registered user subscribes to a supported ticker (already subscribed or
    not), the next tick sends to its socket a [stockUpdate] that holds the
    ticker with its new price. *)
Theorem subscription_served_next_tick (rnd : nat → Q) (st : server)
    (e s : string) (u : user) (subs : list string) (t : string) :
  priced (stockPrices st) →
  e ≠ ""%string →
  t ∈ SUPPORTED_STOCKS →
  findUser st e = Resolved (Some u) →
  subscriptions u = Some subs →
  (e, s) ∈ userSockets st →
  let st1 := (subscribe st (Request (Some e) t)).1 in
  ∃ st2 out m info,
    tick rnd st1 = Some (st2, out)
    ∧ Emit s (stockUpdate m) ∈ out
    ∧ m !! t = Some info
    ∧ stockPrices st2 !! t = Some info.
Proof.
  intros Hp He Hsup Hf Hs Hin st1.
  pose proof (sessionUser_Some e t He) as Hsess.
  assert (∃ u1 subs1, st1 = saveUser st e u1 ∧ subscriptions u1 = Some subs1
                      ∧ t ∈ subs1) as (u1 & subs1 & Hst1 & Hs1 & Ht1).
  { destruct (decide (t ∈ subs)) as [Hknown|Hnew].
    - exists u, subs. split; [|done]. unfold st1.
      rewrite (subscribe_known st _ e u subs Hsess Hsup Hf Hs Hknown).
      by rewrite saveUser_same.
    - exists (with_subscriptions u (subs ++ [t])), (subs ++ [t]).
      split; [|split; [done|]].
      + unfold st1. by rewrite (subscribe_found st _ e u subs Hsess Hsup Hf Hs Hnew).
      + apply elem_of_app. right. by left. }
  destruct (tick_after_save rnd st e u1 _ Hp Hf)
    as (st2 & Htick & Hp2 & Hsock & Hf2).
  destruct (Hp2 t Hsup) as (info & Hinfo & _).
  exists st2, (broadcast st2), (restricted (stockPrices st2) subs1), info.
  rewrite Hst1. split; [done|].
  assert (Hne : subs1 ≠ []) by (intros ->; by apply elem_of_nil in Ht1).
  split; [|split; [|done]].
  - apply (broadcast_in st2 (e, s)); [by rewrite Hsock|].
    rewrite (fanoutIdentity_subscribed _ _ _ _ _ Hf2 Hs1 Hne), fanoutUser_eq.
    apply elem_of_app. right. by left.
  - by rewrite restricted_lookup, (bool_decide_eq_true_2 _ Ht1).
Qed.

Lemma subscription_served_next_tick_witness :
  let rnd : nat → Q := λ _, 0%Q in
  let a := "a@b.co"%string in
  let st := stateAfter rnd (initial rnd (Mongo false ∅))
              [PostLogin a; SocketRegister "s1" a] in
  let st1 := (subscribe st (Request (Some a) "AMZN")).1 in
  ∃ st2 out m info,
    tick rnd st1 = Some (st2, out)
    ∧ Emit "s1" (stockUpdate m) ∈ out
    ∧ m !! "AMZN"%string = Some info
    ∧ stockPrices st2 !! "AMZN"%string = Some info.
Proof.
  intros rnd a st st1.
  apply (subscription_served_next_tick rnd st a "s1" (newUser a) [] "AMZN").
  - change (priced (initPrices rnd).1). apply initPrices_priced.
    intros i. discriminate.
  - discriminate.
  - do 2 right. left.
  - vm_compute. reflexivity.
  - reflexivity.
  - vm_compute. left.
Defined.

Lemma alertsOf_tickers (s : string) (u : user) (p : gmap string priceInfo)
    (subs : list string) (m : emit) :
  m ∈ alertsOf s u p subs → ∃ a, msg m = priceAlertMsg a ∧ a_ticker a ∈ subs.
Proof.
  unfold alertsOf. intros (t & Ht & Hm)%list_elem_of_In%in_flat_map.
  apply list_elem_of_In in Ht, Hm.
  destruct (p !! t) as [info|]; [|by apply elem_of_nil in Hm].
  pose proof (tickerAlerts_shape s u t info) as Hsh.
  rewrite Forall_forall in Hsh.
  destruct (Hsh m Hm) as (_ & a & Ha & Heq).
  exists a. split; [done|]. by rewrite Heq.
Qed.

(** X18.  An unsubscription takes effect at the next tick: nothing the
    tick sends for the identity mentions the ticker any more, neither as a
    key of the [stockUpdate] nor as the subject of an alert, and if it was
    the only subscription the identity is sent nothing. *)
Theorem unsubscription_stops_next_tick (rnd : nat → Q) (st : server)
    (e s : string) (u : user) (subs : list string) (t : string) :
  priced (stockPrices st) →
  e ≠ ""%string →
  findUser st e = Resolved (Some u) →
  subscriptions u = Some subs →
  let st1 := (unsubscribe st (Request (Some e) t)).1 in
  ∃ st2 out,
    tick rnd st1 = Some (st2, out)
    ∧ Forall (λ m, match msg m with
                   | stockUpdate mp => mp !! t = None
                   | priceAlertMsg a => a_ticker a ≠ t
                   end) (fanoutIdentity st2 (e, s))
    ∧ ((∀ x, x ∈ subs → x = t) → fanoutIdentity st2 (e, s) = []).
Proof.
  intros Hp He Hf Hs st1.
  pose proof (sessionUser_Some e t He) as Hsess.
  set (l := filter (λ sub, sub ≠ t) subs).
  assert (Hst1 : st1 = saveUser st e (with_subscriptions u l)).
  { unfold st1. by rewrite (unsubscribe_found st _ e u subs Hsess Hf Hs). }
  destruct (tick_after_save rnd st e (with_subscriptions u l) _ Hp Hf)
    as (st2 & Htick & _ & _ & Hf2).
  exists st2, (broadcast st2). rewrite Hst1. split; [done|].
  assert (Hnot : t ∉ l).
  { intros [H _]%list_elem_of_filter. by apply H. }
  unfold fanoutIdentity, guardedSubscriptions. rewrite Hf2.
  cbn [subscriptions with_subscriptions].
  destruct l as [|x l'] eqn:Hl; [by split|].
  split.
  - rewrite fanoutUser_eq. apply Forall_app. split.
    + apply Forall_forall. intros m (a & Hm & Ha)%alertsOf_tickers.
      rewrite Hm. intros Heq. apply Hnot. by rewrite <- Heq.
    + apply Forall_singleton. cbn [msg].
      by rewrite restricted_lookup, (bool_decide_eq_false_2 _ Hnot).
  - intros Hall. assert (Hx : x ∈ filter (λ sub, sub ≠ t) subs).
    { fold l. rewrite Hl. by left. }
    apply list_elem_of_filter in Hx as [Hx1 Hx2]. by destruct (Hx1 (Hall x Hx2)).
Qed.

Lemma unsubscription_stops_next_tick_witness :
  let rnd : nat → Q := λ _, 0%Q in
  let a := "a@b.co"%string in
  let st := stateAfter rnd (initial rnd (Mongo false ∅))
              [PostLogin a; PostSubscribe (Request (Some a) "GOOG");
               PostSubscribe (Request (Some a) "TSLA"); SocketRegister "s1" a;
               Tick; Tick] in
  let st1 := (unsubscribe st (Request (Some a) "GOOG")).1 in
  ∃ st2 out,
    tick rnd st1 = Some (st2, out)
    ∧ Forall (λ m, match msg m with
                   | stockUpdate mp => mp !! "GOOG"%string = None
                   | priceAlertMsg x => a_ticker x ≠ "GOOG"%string
                   end) (fanoutIdentity st2 (a, "s1"%string))
    ∧ ((∀ x, x ∈ ["GOOG"; "TSLA"]%string → x = "GOOG"%string)
       → fanoutIdentity st2 (a, "s1"%string) = []).
Proof.
  intros rnd a st st1.
  apply (unsubscription_stops_next_tick rnd st a "s1"
           {| email := a; subscriptions := Some ["GOOG"; "TSLA"]%string;
              alerts := Some {| thresholds := Some [] |} |}
           ["GOOG"; "TSLA"]%string "GOOG").
  - intros t Ht.
    destruct (run_priced rnd
                [PostLogin a; PostSubscribe (Request (Some a) "GOOG");
                 PostSubscribe (Request (Some a) "TSLA"); SocketRegister "s1" a;
                 Tick; Tick] (initial rnd (Mongo false ∅)))
      as (st' & out' & Hrun & Hp).
    { apply initPrices_priced. intros i. discriminate. }
    unfold st, stateAfter. rewrite Hrun. by apply Hp.
  - discriminate.
  - vm_compute. reflexivity.
  - reflexivity.
Defined.

(** ** Virtual trades *)

Lemma findHolding_ticker (t : string) (l : list holding) (h : holding) :
  findHolding t l = Some h → h_ticker h = t ∧ h ∈ l.
Proof.
  unfold findHolding. induction l as [|x l IH]; simpl; [done|].
  destruct (String.eqb_spec (h_ticker x) t) as [Heq|Hne].
  - intros [= <-]. split; [done|by left].
  - intros H. destruct (IH H). split; [done|by right].
Qed.

Lemma findHolding_None (t : string) (l : list holding) :
  findHolding t l = None ↔ t ∉ h_ticker <$> l.
Proof.
  unfold findHolding. induction l as [|x l IH]; simpl.
  - split; [intros _; apply not_elem_of_nil|done].
  - rewrite not_elem_of_cons.
    destruct (String.eqb_spec (h_ticker x) t) as [Heq|Hne].
    + split; [done|]. by intros [? _].
    + rewrite IH. split; [by intros ?; split|by intros [_ ?]].
Qed.






Lemma updateHolding_tickers (t : string) (l : list holding) (h' : holding) :
  h_ticker h' = t → h_ticker <$> updateHolding t h' l = h_ticker <$> l.
Proof.
  intros Ht. induction l as [|x l IH]; [done|]. cbn [updateHolding].
  destruct (String.eqb_spec (h_ticker x) t) as [Heq|Hne]; rewrite !fmap_cons.
  - by rewrite Ht, Heq.
  - by rewrite IH.
Qed.

Lemma updateHolding_elem (t : string) (l : list holding) (h' x : holding) :
  x ∈ updateHolding t h' l → x = h' ∨ x ∈ l.
Proof.
  induction l as [|y l IH]; simpl; [by intros ?%elem_of_nil|].
  destruct (String.eqb (h_ticker y) t).
  - intros [->|?]%elem_of_cons; [by left|right; by right].
  - intros [->|H]%elem_of_cons; [right; by left|].
    destruct (IH H); [by left|right; by right].
Qed.












Lemma buy_sound (p p' : portfolio) (t : string) (qty : Z) (pr : Q) :
  soundPortfolio p → 0 < qty → buy p t qty pr = TradeOk p' → soundPortfolio p'.
Proof.
  intros (Hcash & Hpos & Hnd) Hq. unfold buy.
  destruct (Qle_bool (pr * inject_Z qty) (cashBalance p)) eqn:E; [|done].
  apply Qle_bool_iff in E. cbn [negb].
  assert (Hc : (0 <= cashBalance p - pr * inject_Z qty)%Q).
  { by apply (proj1 (Qle_minus_iff _ _)). }
  destruct (findHolding t (holdings p)) as [h|] eqn:Hfind; intros [= <-];
    (split; [done|]); cbn [holdings].
  - destruct (findHolding_ticker _ _ _ Hfind) as [Ht Hin]. split.
    + apply Forall_forall. intros x [->|Hx]%updateHolding_elem.
      * rewrite Forall_forall in Hpos. specialize (Hpos h Hin). simpl. lia.
      * rewrite Forall_forall in Hpos. by apply Hpos.
    + by rewrite updateHolding_tickers.
  - split.
    + apply Forall_app. split; [done|]. by apply Forall_singleton.
    + rewrite fmap_app. apply NoDup_app. split; [done|].
      split; [|apply NoDup_singleton].
      intros x Hx ->%list_elem_of_singleton.
      by apply (proj1 (findHolding_None _ _) Hfind).
Qed.

Lemma sell_sound (p p' : portfolio) (t : string) (qty : Z) (pr : Q) :
  soundPortfolio p → 0 < qty → (0 <= pr)%Q →
  sell p t qty pr = TradeOk p' → soundPortfolio p'.
Proof.
  intros (Hcash & Hpos & Hnd) Hq Hpr. unfold sell.
  destruct (findHolding t (holdings p)) as [h|] eqn:Hfind; [|done].
  destruct (Z.ltb_spec (h_quantity h) qty) as [|Hge]; [done|].
  destruct (findHolding_ticker _ _ _ Hfind) as [Ht Hin].
  intros [= <-]. split; [|cbn [holdings]].
  { cbn [cashBalance].
    assert (0 <= pr * inject_Z qty)%Q.
    { apply Qmult_le_0_compat; [done|]. unfold Qle. simpl. lia. }
    rewrite <- (Qplus_0_r 0). by apply Qplus_le_compat. }
  set (h' := {| h_ticker := h_ticker h; h_quantity := h_quantity h - qty;
                h_avgPrice := h_avgPrice h |}).
  assert (Htick : h_ticker <$> updateHolding t h' (holdings p)
                  = h_ticker <$> holdings p) by by apply updateHolding_tickers.
  rewrite Forall_forall in Hpos.
  destruct (Z.eqb_spec (h_quantity h - qty) 0) as [H0|H0]; split.
  - apply Forall_forall. intros x [Hx1 Hx2]%list_elem_of_filter.
    apply updateHolding_elem in Hx2 as [->|Hx2]; [by destruct Hx1|by apply Hpos].
  - eapply sublist_NoDup; [|apply fmap_sublist, sublist_filter].
    by rewrite Htick.
  - apply Forall_forall. intros x [->|Hx]%updateHolding_elem; [simpl; lia|].
    by apply Hpos.
  - by rewrite Htick.
Qed.

Lemma defaultPortfolio_sound : soundPortfolio defaultPortfolio.
Proof. split; [discriminate|]. split; constructor. Qed.

(** X21.  The trade endpoint keeps a portfolio sound: starting from a cash
    balance that is not negative and holdings that are positive and one per
    ticker (the portfolio of a new user is such), an executed trade, at a
    price of the floored table, leaves the cash balance not negative, every
    holding positive, and one holding per ticker; a holding sold out
    completely is removed. *)
Theorem trade_keeps_portfolio_sound (prices : gmap string priceInfo)
    (op : option portfolio) (req : tradeRequest) (p' : portfolio) :
  priced prices →
  (∀ p, op = Some p → soundPortfolio p) →
  trade prices (LookupFound op) req = TradeOk p' →
  soundPortfolio p'
  ∧ (tr_side req = "sell"%string →
     position p' (tr_ticker req) = 0 →
     tr_ticker req ∉ h_ticker <$> holdings p').
Proof.
  intros Hp Hop Htrade.
  assert (Hsound : soundPortfolio (default defaultPortfolio op)).
  { destruct op as [p|]; [by apply Hop|apply defaultPortfolio_sound]. }
  unfold trade in Htrade.
  destruct (sessionUser _); [|done].
  destruct (negb (includes (tr_ticker req) SUPPORTED_STOCKS)) eqn:Hsup; [done|].
  destruct (negb (includes (tr_side req) _)); [done|].
  destruct (tr_quantity req) as [qty|]; [|done].
  destruct (Z.leb_spec qty 0) as [|Hq]; [done|].
  apply negb_false_iff, bool_decide_eq_true in Hsup.
  destruct (Hp _ Hsup) as (info & Hinfo & Hfloor). rewrite Hinfo in Htrade.
  assert (Hpr : (0 <= parseFloat (price info))%Q).
  { unfold parseFloat, Qle. simpl. lia. }
  destruct (String.eqb_spec (tr_side req) "buy") as [Hb|Hb].
  - split; [by eapply buy_sound|]. rewrite Hb. discriminate.
  - assert (Hs' : soundPortfolio p') by by eapply sell_sound.
    split; [done|]. intros _ Hzero. apply findHolding_None.
    unfold position in Hzero.
    destruct (findHolding (tr_ticker req) (holdings p')) as [h|] eqn:Hfind; [|done].
    destruct (findHolding_ticker _ _ _ Hfind) as [_ Hin].
    destruct Hs' as (_ & Hpos & _). rewrite Forall_forall in Hpos.
    specialize (Hpos h Hin). lia.
Qed.

Lemma trade_keeps_portfolio_sound_witness :
  let prices := (initPrices (λ _, 0%Q)).1 in
  let p := {| cashBalance := 500;
              holdings := [{| h_ticker := "GOOG"; h_quantity := 3;
                              h_avgPrice := 90 |}] |} in
  let req := {| tr_session := Some "a@b.co"%string; tr_ticker := "GOOG";
                tr_side := "sell"; tr_quantity := Some 3 |} in
  let p' := {| cashBalance := (500 + (10000 # 100) * inject_Z 3)%Q;
               holdings := [] |} in
  soundPortfolio p'
  ∧ (tr_side req = "sell"%string →
     position p' (tr_ticker req) = 0 →
     tr_ticker req ∉ h_ticker <$> holdings p').
Proof.
  intros prices p req p'.
  apply (trade_keeps_portfolio_sound prices (Some p) req p').
  - apply initPrices_priced. intros i. discriminate.
  - intros p0 [= <-]. split; [discriminate|].
    split; [repeat constructor|].
    by apply (bool_decide_unpack _).
  - vm_compute. reflexivity.
Defined.





(** ** The dashboard *)

Lemma recordPriceHistory_lookup (hist : gmap string (list Q)) (t : string) (p : Q) :
  (length (default [] (hist !! t)) ≤ 30)%nat →
  recordPriceHistory hist t p !! t
  = Some (drop (length (default [] (hist !! t) ++ [p]) - 30)
               (default [] (hist !! t) ++ [p])).
Proof.
  intros Hlen. unfold recordPriceHistory. rewrite lookup_insert_eq. f_equal.
  set (h := default [] (hist !! t)) in *.
  rewrite length_app. cbn [length].
  destruct (Nat.ltb_spec 30 (length h + 1)) as [Hlt|Hge].
  - by replace (length h + 1 - 30)%nat with 1%nat by lia.
  - by replace (length h + 1 - 30)%nat with 0%nat by lia.
Qed.

Lemma price_history_fold (t : string) (prices : list Q) :
  ∀ hist h0, hist !! t = Some h0 → (length h0 ≤ 30)%nat →
    foldl (λ h p, recordPriceHistory h t p) hist prices !! t
    = Some (drop (length (h0 ++ prices) - 30) (h0 ++ prices)).
Proof.
  induction prices as [|p prices IH]; intros hist h0 Hh Hlen.
  - simpl. rewrite Hh, app_nil_r. f_equal.
    by replace (length h0 - 30)%nat with 0%nat by lia.
  - cbn [foldl].
    assert (Hstep := recordPriceHistory_lookup hist t p).
    rewrite Hh in Hstep. change (default [] (Some h0)) with h0 in Hstep.
    specialize (Hstep Hlen).
    set (k := (length (h0 ++ [p]) - 30)%nat) in *.
    assert (Hk : (k ≤ length (h0 ++ [p]))%nat) by (unfold k; lia).
    rewrite (IH _ _ Hstep).
    2:{ rewrite length_drop. unfold k. rewrite length_app. cbn [length]. lia. }
    apply f_equal.
    replace (h0 ++ p :: prices) with ((h0 ++ [p]) ++ prices)
      by by rewrite <- app_assoc.
    rewrite <- (drop_app_le (h0 ++ [p]) prices k Hk), drop_drop. f_equal.
    rewrite length_drop, !length_app in *. cbn [length] in *.
    unfold k. rewrite length_app. cbn [length]. lia.
Qed.

(** X24.  The sparkline history of a ticker is a sliding window: however
    many prices are recorded, it holds the last 30 of them, oldest first,
    and never more; the histories of other tickers are not touched. *)
Theorem price_history_window (hist : gmap string (list Q)) (t : string)
    (prices : list Q) :
  (length (default [] (hist !! t)) ≤ 30)%nat →
  prices ≠ [] →
  let all := default [] (hist !! t) ++ prices in
  let hist' := foldl (λ h p, recordPriceHistory h t p) hist prices in
  hist' !! t = Some (drop (length all - 30) all)
  ∧ (length (drop (length all - 30) all) ≤ 30)%nat
  ∧ (∀ t', t' ≠ t → hist' !! t' = hist !! t').
Proof.
  intros Hlen Hne all hist'. split; [|split].
  - destruct prices as [|p prices]; [done|]. unfold hist', all. cbn [foldl].
    pose proof (recordPriceHistory_lookup hist t p Hlen) as Hstep.
    rewrite (price_history_fold t prices _ _ Hstep).
    2:{ rewrite length_drop, length_app. cbn [length]. lia. }
    set (h0 := default [] (hist !! t)) in *.
    set (k := (length (h0 ++ [p]) - 30)%nat).
    assert (Hk : (k ≤ length (h0 ++ [p]))%nat) by (unfold k; lia).
    apply f_equal.
    replace (h0 ++ p :: prices) with ((h0 ++ [p]) ++ prices)
      by by rewrite <- app_assoc.
    rewrite <- (drop_app_le (h0 ++ [p]) prices k Hk), drop_drop. f_equal.
    rewrite length_drop, !length_app. cbn [length].
    unfold k. rewrite length_app. cbn [length]. lia.
  - rewrite length_drop. lia.
  - intros t' Hne'. unfold hist'. clear Hlen Hne all hist'.
    revert hist. induction prices as [|p prices IH]; intros hist; [done|].
    cbn [foldl]. rewrite IH. unfold recordPriceHistory.
    by rewrite lookup_insert_ne.
Qed.

Lemma price_history_window_witness :
  let prices := (λ n : nat, inject_Z (Z.of_nat n)) <$> seq 1 32 in
  let all := default [] ((∅ : gmap string (list Q)) !! "GOOG"%string) ++ prices in
  let hist' := foldl (λ h p, recordPriceHistory h "GOOG" p) ∅ prices in
  hist' !! "GOOG"%string = Some (drop (length all - 30) all)
  ∧ (length (drop (length all - 30) all) ≤ 30)%nat
  ∧ (∀ t', t' ≠ "GOOG"%string → hist' !! t' = (∅ : gmap string (list Q)) !! t').
Proof.
  intros prices.
  apply (price_history_window ∅ "GOOG" prices).
  - vm_compute. lia.
  - discriminate.
Defined.

Lemma highlightEntry_extremes (acc : highlights) (seen : list (string * option Q))
    (e : string * option Q) :
  extremesOf acc seen → extremesOf (highlightEntry acc e) (seen ++ [e]).
Proof.
  intros (Hnone & Hboth & Hg & Hl). destruct e as [t0 [pct|]].
  - (* an entry with a number *)
    unfold highlightEntry. cbn [snd fst].
    split; [|split; [|split]].
    + cbn [topGainer]. split.
      * intros H. destruct (topGainer acc) as [g|]; [|done].
        by destruct (gt pct (hl_change g)).
      * intros H. specialize (H (t0, Some pct)). cbn in H.
        discriminate H. apply elem_of_app. right. by left.
    + cbn [topGainer topLoser]. split; intros H.
      * destruct (topLoser acc) as [l|]; [|done].
        by destruct (negb (Qle_bool (hl_change l) pct)).
      * destruct (topGainer acc) as [g|]; [|done].
        by destruct (gt pct (hl_change g)).
    + cbn [topGainer]. intros g Hnew.
      destruct (topGainer acc) as [g0|] eqn:Hg0.
      * destruct (Hg g0 eq_refl) as [Hin Hmax].
        destruct (gt pct (hl_change g0)) eqn:Hgt; injection Hnew as <-.
        -- cbn. split; [apply elem_of_app; right; by left|].
           apply negb_true_iff in Hgt.
           assert (Hlt : (hl_change g0 < pct)%Q).
           { apply Qnot_le_lt. intros H. apply Qle_bool_iff in H. congruence. }
           intros t q [Hq|Hq%list_elem_of_singleton]%elem_of_app.
           ++ eapply Qle_trans; [by eapply Hmax|by apply Qlt_le_weak].
           ++ injection Hq as _ ->. apply Qle_refl.
        -- split; [apply elem_of_app; by left|].
           apply negb_false_iff, Qle_bool_iff in Hgt.
           intros t q [Hq|Hq%list_elem_of_singleton]%elem_of_app.
           ++ by eapply Hmax.
           ++ by injection Hq as _ ->.
      * injection Hnew as <-. cbn. split; [apply elem_of_app; right; by left|].
        intros t q [Hq|Hq%list_elem_of_singleton]%elem_of_app.
        -- by specialize (proj1 Hnone eq_refl _ Hq).
        -- injection Hq as _ ->. apply Qle_refl.
    + cbn [topLoser]. intros l Hnew.
      destruct (topLoser acc) as [l0|] eqn:Hl0.
      * destruct (Hl l0 eq_refl) as [Hin Hmin].
        destruct (negb (Qle_bool (hl_change l0) pct)) eqn:Hlt; injection Hnew as <-.
        -- cbn. split; [apply elem_of_app; right; by left|].
           apply negb_true_iff in Hlt.
           assert (Hlt' : (pct < hl_change l0)%Q).
           { apply Qnot_le_lt. intros H. apply Qle_bool_iff in H. congruence. }
           intros t q [Hq|Hq%list_elem_of_singleton]%elem_of_app.
           ++ eapply Qle_trans; [by apply Qlt_le_weak|by eapply Hmin].
           ++ injection Hq as _ ->. apply Qle_refl.
        -- split; [apply elem_of_app; by left|].
           apply negb_false_iff, Qle_bool_iff in Hlt.
           intros t q [Hq|Hq%list_elem_of_singleton]%elem_of_app.
           ++ by eapply Hmin.
           ++ by injection Hq as _ ->.
      * injection Hnew as <-. cbn. split; [apply elem_of_app; right; by left|].
        assert (Hgn : topGainer acc = None) by by apply Hboth.
        intros t q [Hq|Hq%list_elem_of_singleton]%elem_of_app.
        -- by specialize (proj1 Hnone Hgn _ Hq).
        -- injection Hq as _ ->. apply Qle_refl.
  - (* [NaN]: the entry is skipped *)
    unfold highlightEntry. cbn [snd].
    assert (Hsame : ∀ t q, (t, Some q) ∈ seen ++ [(t0, None)] → (t, Some q) ∈ seen).
    { intros t q [?|Hq%list_elem_of_singleton]%elem_of_app; [done|discriminate]. }
    split; [|split; [done|split]].
    + rewrite Hnone. split.
      * intros H e [?|He%list_elem_of_singleton]%elem_of_app; [by apply H|].
        by subst e.
      * intros H e He. apply H, elem_of_app. by left.
    + intros g Hgg. destruct (Hg g Hgg) as [Hin Hmax].
      split; [apply elem_of_app; by left|]. intros t q Hq. eapply Hmax. eauto.
    + intros l Hll. destruct (Hl l Hll) as [Hin Hmin].
      split; [apply elem_of_app; by left|]. intros t q Hq. eapply Hmin. eauto.
Qed.

Lemma highlights_fold (entries : list (string * option Q)) :
  ∀ acc seen, extremesOf acc seen →
    extremesOf (foldl highlightEntry acc entries) (seen ++ entries).
Proof.
  induction entries as [|e entries IH]; intros acc seen Hinv.
  - by rewrite app_nil_r.
  - cbn [foldl]. replace (seen ++ e :: entries) with ((seen ++ [e]) ++ entries)
      by by rewrite <- app_assoc.
    by apply IH, highlightEntry_extremes.
Qed.

(** X25.  The overview of the dashboard names true extremes: the top
    gainer is an entry whose percent change no other entry exceeds, the top
    loser one that no other entry undercuts, entries whose percent change is
    not a number are passed over, and both are absent exactly when no entry
    has a number. *)
Theorem highlights_are_extremes (entries : list (string * option Q)) :
  extremesOf (updateHighlights entries) entries.
Proof.
  apply (highlights_fold entries _ []).
  split; [|split; [done|split]]; cbn.
  - split; [|done]. by intros _ e ?%elem_of_nil.
  - by intros g.
  - by intros l.
Qed.

Example highlights_sample :
  let r := updateHighlights
             [("GOOG", Some (-5 # 10)); ("TSLA", None); ("AMZN", Some (12 # 10));
              ("META", Some (12 # 10)); ("NVDA", Some (-3))]%string%Q in
  (hl_ticker <$> topGainer r) = Some "AMZN"%string
  ∧ (hl_ticker <$> topLoser r) = Some "NVDA"%string.
Proof. split; reflexivity. Qed.
